(** * RecoBot: the request-interpretation and ranking pipeline of [chatbot.py]

    A shallow embedding of the movie chatbot's core: text normalisation,
    vocabulary classification against the SQLite store, filter extraction,
    predicate construction, ranking and result formatting, followed by the
    properties of that code.

    Conventions.
    - A Python [str] is a list of Unicode code points ([N]); [u "..."] reads a
      literal of this file (UTF-8) as such a list, the way Python reads the
      literals of [chatbot.py].
    - The character tables of the Python runtime ([str.lower], the regex
      classes [\w] and [\d], [str.isdigit]) are written out for the Latin-1
      range U+0000..U+00FF, which covers every literal of the program; above
      that range they are taken from a [unicode_ext] oracle, over which all
      statements are universally quantified.
    - SQLite [REAL] values and Python floats are IEEE binary64 numbers
      ([PrimFloat]); SQL [NULL] in a [REAL] column is the NaN.
    - [datetime.now().year] is the explicit argument [current_year].
    - The library's limit on the parameters bound to one statement is the
      field [max_variables] of the store, and the rows that the import from
      TMDB commits are the argument [tmdb_movies] of [initialize_db]. *)

From Stdlib Require Import String Ascii DecimalString.
From Stdlib Require Import Bool NArith ZArith Lia Floats Uint63.
From Stdlib Require Import List Sorted Permutation.
Import ListNotations.

Set Implicit Arguments.

(** ** Python strings *)

Definition char := N.
Definition str := list char.

(** UTF-8 decoding of a literal (well-formed input only: the literals below). *)
Fixpoint utf8_go (pend : N) (need : nat) (bs : list N) : str :=
  match bs with
  | [] => []
  | b :: bs' =>
    match need with
    | O =>
      if (b <? 128)%N then b :: utf8_go 0%N 0 bs'
      else if (b <? 224)%N then utf8_go (b - 192)%N 1 bs'
      else if (b <? 240)%N then utf8_go (b - 224)%N 2 bs'
      else utf8_go (b - 240)%N 3 bs'
    | S O => (pend * 64 + (b - 128))%N :: utf8_go 0%N 0 bs'
    | S n => utf8_go (pend * 64 + (b - 128))%N n bs'
    end
  end.

Definition u (s : string) : str :=
  utf8_go 0%N 0 (map N_of_ascii (list_ascii_of_string s)).

(** [a == b] on strings. *)
Fixpoint str_eqb (a b : str) : bool :=
  match a, b with
  | [], [] => true
  | x :: a', y :: b' => (x =? y)%N && str_eqb a' b'
  | _, _ => false
  end.

(** [w in l] for a list or set of strings. *)
Definition mem (w : str) (l : list str) : bool := existsb (str_eqb w) l.

(** [s.startswith(p)] *)
Fixpoint starts_with (p s : str) : bool :=
  match p, s with
  | [], _ => true
  | _ :: _, [] => false
  | x :: p', y :: s' => (x =? y)%N && starts_with p' s'
  end.

(** [p in s] for two strings: [p] occurs in [s] as a substring. *)
Fixpoint str_in (p s : str) : bool :=
  starts_with p s ||
  match s with
  | [] => false
  | _ :: s' => str_in p s'
  end.

(** The order of SQLite's BINARY collation (that of [ORDER BY title] and of
    the index of a [TEXT PRIMARY KEY]): the comparison of the texts as byte
    strings, which on UTF-8 is the lexicographic order of the code points. *)
Fixpoint title_leb (a b : str) : bool :=
  match a, b with
  | [], _ => true
  | _ :: _, [] => false
  | x :: a', y :: b' =>
    if (x <? y)%N then true
    else if (y <? x)%N then false
    else title_leb a' b'
  end.

(** [sep.join(parts)] *)
Fixpoint join (sep : str) (parts : list str) : str :=
  match parts with
  | [] => []
  | [p] => p
  | p :: rest => p ++ sep ++ join sep rest
  end.

(** [any(kw in text for kw in group)] *)
Definition any_in (group : list str) (text : str) : bool :=
  existsb (fun kw => str_in kw text) group.

(** ** Character tables *)

Record unicode_ext := {
  ext_lower : str -> str;          (* str.lower() of a text leaving Latin-1 *)
  ext_word : char -> bool;         (* \w above U+00FF *)
  ext_digit : char -> bool;        (* str.isdigit() above U+00FF *)
  ext_decimal : char -> option Z   (* \d above U+00FF, with the value int() gives it *)
}.

Definition between (lo hi c : char) : bool := ((lo <=? c) && (c <=? hi))%N.

Arguments between (lo hi c)%_N_scope.

Definition is_latin1 (c : char) : bool := (c <? 256)%N.

(** Upper-case letters of Latin-1: A-Z, U+00C0..U+00D6, U+00D8..U+00DE; each
    lowers to the code point 32 above it. *)
Definition lower_latin1 (c : char) : char :=
  if between 65 90 c || between 192 214 c || between 216 222 c
  then (c + 32)%N else c.

(** [\w] on Latin-1: letters, numeric characters and the underscore. *)
Definition word_latin1 (c : char) : bool :=
  between 48 57 c || between 65 90 c || (c =? 95)%N || between 97 122 c
  || (c =? 170)%N || (c =? 178)%N || (c =? 179)%N || (c =? 181)%N
  || (c =? 185)%N || (c =? 186)%N || between 188 190 c
  || between 192 214 c || between 216 246 c || between 248 255 c.

(** [str.isdigit] on Latin-1: 0-9 and the superscripts 1, 2, 3. *)
Definition digit_latin1 (c : char) : bool :=
  between 48 57 c || (c =? 178)%N || (c =? 179)%N || (c =? 185)%N.

Section Text.

Variable ext : unicode_ext.

(** [text.lower()] *)
Definition py_lower (s : str) : str :=
  if forallb is_latin1 s then map lower_latin1 s else ext_lower ext s.

(** one character of [\w] *)
Definition is_word (c : char) : bool :=
  if is_latin1 c then word_latin1 c else ext_word ext c.

(** [word.isdigit()]: every character is a digit, and there is one. *)
Definition is_digit_char (c : char) : bool :=
  if is_latin1 c then digit_latin1 c else ext_digit ext c.

Definition isdigit (w : str) : bool :=
  match w with
  | [] => false
  | _ => forallb is_digit_char w
  end.

(** one character of [\d], with its value *)
Definition decimal_value (c : char) : option Z :=
  if is_latin1 c
  then (if between 48 57 c then Some (Z.of_N c - 48)%Z else None)
  else ext_decimal ext c.

(** [re.findall(r'\b\w+\b', s)]: a match starts at a word boundary, takes
    the longest run of word characters and must end at a boundary, so the
    matches are the maximal runs of word characters, left to right.  [cur] is
    the run being read, last character first. *)
Definition flush (cur : str) : list str :=
  match cur with
  | [] => []
  | _ => [rev cur]
  end.

Fixpoint findall_go (cur : str) (s : str) : list str :=
  match s with
  | [] => flush cur
  | c :: s' =>
    if is_word c then findall_go (c :: cur) s'
    else flush cur ++ findall_go [] s'
  end.

Definition findall_words (s : str) : list str := findall_go [] s.

(** The condition of both list comprehensions (chatbot.py 209-214, 289-294):
    [len(word) > 2 and word not in stop_words and not word.isdigit()]. *)
Definition significant (stop : list str) (word : str) : bool :=
  (2 <? length word)%nat && negb (mem word stop) && negb (isdigit word).

End Text.

(** ** The keyword tables of [chatbot.py] *)

(** A Python dict with string keys, in insertion order. *)
Definition dict (V : Type) := list (str * V).

(** [d.get(k, default)]; for a key that is present this is [d[k]]. *)
Fixpoint dict_get (V : Type) (d : dict V) (k : str) (default : V) : V :=
  match d with
  | [] => default
  | (k', v) :: d' => if str_eqb k k' then v else dict_get d' k default
  end.

Definition entry (k : string) (ws : list string) : str * list str :=
  (u k, map u ws).

Definition GENRE_MAPPING : dict (list str) := [
  entry "action" ["action"; "combat"; "explosion"; "aventure"];
  entry "comédie" ["comédie"; "humour"; "drôle"; "rire"];
  entry "drame" ["drame"; "dramatique"; "émouvant"];
  entry "science-fiction" ["science-fiction"; "sci-fi"; "futur"; "espace"];
  entry "horreur" ["horreur"; "épouvante"; "peur"; "effrayant"];
  entry "thriller" ["thriller"; "suspense"; "mystère"];
  entry "romance" ["romance"; "amour"; "romantique"];
  entry "animation" ["animation"; "animé"; "dessin animé"];
  entry "documentaire" ["documentaire"; "docu"];
  entry "famille" ["famille"; "familial"; "enfant"; "jeunesse"];
  entry "guerre" ["guerre"; "militaire"; "bataille"; "soldat"; "armée"; "combat"]
]%string.

Definition QUALITY_INDICATORS : dict (list str) := [
  entry "populaire" ["populaire"; "connu"; "célèbre"; "succès"; "blockbuster"];
  entry "critique" ["acclamé"; "critique"; "récompense"; "oscar"; "césar"];
  entry "inconnu" ["méconnu"; "rare"; "confidentiel"; "découverte"; "indie"]
]%string.

Definition THEME_MAPPING : dict (list str) := [
  entry "voiture" ["voiture"; "course"; "automobile"; "racing"; "fast";
                   "furious"; "vitesse"; "pilote"];
  entry "super-héros" ["super-héros"; "superhéros"; "marvel"; "dc"; "comics";
                       "superman"; "batman"; "avengers"];
  entry "sport" ["sport"; "football"; "basketball"; "tennis"; "boxe";
                 "athlète"; "champion"];
  entry "guerre" ["guerre"; "militaire"; "bataille"; "soldat"; "armée"; "combat"];
  entry "fantasy" ["fantasy"; "magie"; "dragon"; "sorcier"; "magique"; "médiéval"];
  entry "western" ["western"; "cowboy"; "far west"; "ranch"; "shérif"];
  entry "espionnage" ["espion"; "agent secret"; "cia"; "mission"; "infiltration"];
  entry "catastrophe" ["catastrophe"; "désastre"; "apocalypse"; "tsunami";
                       "tremblement"; "météorite"];
  entry "musical" ["musical"; "musique"; "danse"; "chant"; "concert";
                   "comédie musicale"];
  entry "historique" ["historique"; "histoire"; "période"; "époque"; "biographie"]
]%string.

(** The set literal [STOP_WORDS]; only membership is ever asked of it. *)
Definition STOP_WORDS : list str := map u [
  "le"; "la"; "les"; "un"; "une"; "des"; "ce"; "ces"; "sa"; "ses"; "son";
  "mes"; "mon"; "ma";
  "et"; "ou"; "mais"; "donc"; "car"; "ni"; "or"; "que"; "qui"; "quoi";
  "dont"; "où";
  "dans"; "sur"; "sous"; "par"; "pour"; "en"; "vers"; "avec"; "sans"; "de"; "à";
  "je"; "tu"; "il"; "elle"; "nous"; "vous"; "ils"; "elles"; "on";
  "être"; "avoir"; "faire"; "dire"; "aller"; "voir"; "vouloir"; "pouvoir";
  "falloir";
  "plus"; "moins"; "très"; "bien"; "mal"; "tout"; "tous"; "toute"; "toutes";
  "autre"; "autres"; "même"; "aussi"; "alors"; "donc"; "après"; "avant";
  "oui"; "non"; "peut"; "être"; "comme"; "entre"; "chaque"; "sans"; "puis";
  "est"; "sont"; "sera"; "été"; "était"; "étaient"; "soit"; "suis"; "sommes";
  "film"; "films"; "histoire"; "année"; "années"; "fois"; "fait"; "faire";
  "cette"; "cet"; "ces"; "celui"; "celle"; "ceux"; "celles"
]%string.

(** ** The SQLite store *)

(** A row of [significant_words] ([word TEXT PRIMARY KEY]). *)
Record word_row := {
  word : str;
  category : str;
  subcategory : str;
  weight : Z
}.

(** A row of [movies]; a [REAL] column that holds NULL holds the NaN. *)
Record movie_row := {
  title : str;
  overview : str;
  release_year : option Z;
  movie_genres : str;
  vote_average : float;
  vote_count : Z;
  popularity : float
}.

(** The connection [movie_db]: its three tables, and the limit the engine
    sets on the number of parameters bound to one statement
    ([SQLITE_LIMIT_VARIABLE_NUMBER]; a statement with more of them fails with
    an [sqlite3.OperationalError]). *)
Record database := {
  significant_words : list word_row;
  stop_words : list str;
  movies : list movie_row;
  max_variables : Z
}.

(** [INSERT OR REPLACE INTO significant_words]: the row that holds the key, if
    any, is deleted and the new row is inserted (it gets a fresh rowid, so it
    comes last in a scan of the table). *)
Definition upsert_word (r : word_row) (t : list word_row) : list word_row :=
  filter (fun x => negb (str_eqb (word x) (word r))) t ++ [r].

(** [INSERT OR REPLACE INTO stop_words] *)
Definition upsert_stop (w : str) (t : list str) : list str :=
  filter (fun x => negb (str_eqb x w)) t ++ [w].

(** [cursor.executemany] of the upsert over a list of rows. *)
Definition upsert_words (rows : list word_row) (t : list word_row) : list word_row :=
  fold_left (fun acc r => upsert_word r acc) rows t.

(** [initialize_significant_words]: the genre words with weight 2, then the
    theme words with weight 1. *)
Definition words_to_insert : list word_row :=
  flat_map (fun gk => map (fun w => Build_word_row w (u "genre") (fst gk) 2) (snd gk))
           GENRE_MAPPING
  ++
  flat_map (fun tk => map (fun w => Build_word_row w (u "theme") (fst tk) 1) (snd tk))
           THEME_MAPPING.

Definition initialize_significant_words (db : database) : database :=
  {| significant_words := upsert_words words_to_insert (significant_words db);
     stop_words := stop_words db;
     movies := movies db;
     max_variables := max_variables db |}.

(** [initialize_stop_words] *)
Definition initialize_stop_words (db : database) : database :=
  {| significant_words := significant_words db;
     stop_words := fold_left (fun acc w => upsert_stop w acc) STOP_WORDS (stop_words db);
     movies := movies db;
     max_variables := max_variables db |}.

(** [import_movies_from_tmdb] (movie_db.py 453-500) inserts what it fetched
    from the TMDB service and commits genre by genre; the table has no key,
    so the rows are appended; an exception is caught and the genre at hand
    rolled back.  [tmdb_movies] are the rows it commits (none when the service
    cannot be reached). *)
Definition import_movies_from_tmdb (tmdb_movies : list movie_row)
    (db : database) : database :=
  {| significant_words := significant_words db;
     stop_words := stop_words db;
     movies := movies db ++ tmdb_movies;
     max_variables := max_variables db |}.

(** [initialize_db] (chatbot.py 100-148): the vocabulary and the stop words
    are seeded when their table is empty, and the movies are imported when
    [movies] is empty. *)
Definition initialize_db (tmdb_movies : list movie_row) (db : database)
  : database :=
  let db1 := match significant_words db with
             | [] => initialize_significant_words db
             | _ => db
             end in
  let db2 := match stop_words db1 with
             | [] => initialize_stop_words db1
             | _ => db1
             end in
  match movies db2 with
  | [] => import_movies_from_tmdb tmdb_movies db2
  | _ => db2
  end.

Definition empty_db : database :=
  {| significant_words := []; stop_words := []; movies := [];
     max_variables := 32766 |}.

(** The administrative command [add word <word> <category> <subcategory>]
    (chatbot.py 611-618), once its three arguments are split off: the upsert
    with weight 1. *)
Definition add_word (db : database) (w cat sub : str) : database :=
  {| significant_words := upsert_word (Build_word_row w cat sub 1) (significant_words db);
     stop_words := stop_words db;
     movies := movies db;
     max_variables := max_variables db |}.

(** [add stop <word>] *)
Definition add_stop (db : database) (w : str) : database :=
  {| significant_words := significant_words db;
     stop_words := upsert_stop w (stop_words db);
     movies := movies db;
     max_variables := max_variables db |}.

(** ** The request filters *)

(** The dict built by [analyze_request], one field per key. *)
Record filters := {
  genres : list str;
  themes : list str;
  mood : option str;
  period : option str;
  year : option Z;
  rating_min : option float;
  sort_by : str;
  keywords : list str;
  prefer_unknown : bool;
  exclude_genres : list str
}.

Definition default_filters : filters :=
  {| genres := []; themes := []; mood := None; period := None; year := None;
     rating_min := None; sort_by := u "weighted_score"; keywords := [];
     prefer_unknown := false; exclude_genres := [] |}.

Definition set_genres (f : filters) (v : list str) : filters :=
  {| genres := v; themes := themes f; mood := mood f; period := period f;
     year := year f; rating_min := rating_min f; sort_by := sort_by f;
     keywords := keywords f; prefer_unknown := prefer_unknown f;
     exclude_genres := exclude_genres f |}.

Definition set_themes (f : filters) (v : list str) : filters :=
  {| genres := genres f; themes := v; mood := mood f; period := period f;
     year := year f; rating_min := rating_min f; sort_by := sort_by f;
     keywords := keywords f; prefer_unknown := prefer_unknown f;
     exclude_genres := exclude_genres f |}.

Definition set_year (f : filters) (v : option Z) : filters :=
  {| genres := genres f; themes := themes f; mood := mood f; period := period f;
     year := v; rating_min := rating_min f; sort_by := sort_by f;
     keywords := keywords f; prefer_unknown := prefer_unknown f;
     exclude_genres := exclude_genres f |}.

Definition set_rating_min (f : filters) (v : option float) : filters :=
  {| genres := genres f; themes := themes f; mood := mood f; period := period f;
     year := year f; rating_min := v; sort_by := sort_by f;
     keywords := keywords f; prefer_unknown := prefer_unknown f;
     exclude_genres := exclude_genres f |}.

Definition set_sort_by (f : filters) (v : str) : filters :=
  {| genres := genres f; themes := themes f; mood := mood f; period := period f;
     year := year f; rating_min := rating_min f; sort_by := v;
     keywords := keywords f; prefer_unknown := prefer_unknown f;
     exclude_genres := exclude_genres f |}.

Definition set_keywords (f : filters) (v : list str) : filters :=
  {| genres := genres f; themes := themes f; mood := mood f; period := period f;
     year := year f; rating_min := rating_min f; sort_by := sort_by f;
     keywords := v; prefer_unknown := prefer_unknown f;
     exclude_genres := exclude_genres f |}.

Definition set_prefer_unknown (f : filters) (v : bool) : filters :=
  {| genres := genres f; themes := themes f; mood := mood f; period := period f;
     year := year f; rating_min := rating_min f; sort_by := sort_by f;
     keywords := keywords f; prefer_unknown := v;
     exclude_genres := exclude_genres f |}.

Section Analysis.

Variable ext : unicode_ext.

(** *** [extract_significant_words] (chatbot.py 280-296) *)
Definition extract_significant_words (text : str) : list str :=
  match text with
  | [] => []
  | _ => filter (significant ext STOP_WORDS) (findall_words ext (py_lower ext text))
  end.

(** *** [get_significant_words] (chatbot.py 198-230) *)

(** The list [filtered_words]: the stop words are those of the store. *)
Definition filtered_words (db : database) (text : str) : list str :=
  filter (significant ext (stop_words db)) (findall_words ext (py_lower ext text)).

(** The rows in the order of the primary-key index on [word]. *)
Fixpoint insert_by_word (r : word_row) (l : list word_row) : list word_row :=
  match l with
  | [] => [r]
  | h :: t =>
    if title_leb (word r) (word h) then r :: l
    else h :: insert_by_word r t
  end.

Definition order_by_word (l : list word_row) : list word_row :=
  fold_right insert_by_word [] l.

(** [SELECT word, category, subcategory, weight FROM significant_words
    WHERE word IN (?, ..., ?)]: the rows of the table whose key is among the
    bound values, each row once; the engine answers through the index of the
    primary key, so the rows come in the order of their keys. *)
Definition select_words_in (t : list word_row) (ws : list str) : list word_row :=
  order_by_word (filter (fun r => mem (word r) ws) t).

(** [get_significant_words]: one parameter is bound per filtered word, so a
    request with more of them than the engine allows makes [execute] raise an
    [sqlite3.OperationalError], which the handler answers with [[]]. *)
Definition get_significant_words (db : database) (text : str) : list word_row :=
  match filtered_words db text with
  | [] => []
  | ws =>
    if (max_variables db <? Z.of_nat (length ws))%Z then []
    else select_words_in (significant_words db) ws
  end.

(** *** [extract_year] (chatbot.py 345-361) *)

(** [int] of the [n] characters matched by [\d{n}], if [s] starts with them. *)
Fixpoint read_digits (n : nat) (acc : Z) (s : str) : option Z :=
  match n with
  | O => Some acc
  | S n' =>
    match s with
    | [] => None
    | c :: s' =>
      match decimal_value ext c with
      | Some d => read_digits n' (acc * 10 + d)%Z s'
      | None => None
      end
    end
  end.

(** A match of [lit(\d{4})] at the start of [s], as [int(match.group(1))]. *)
Definition match_here (lit s : str) : option Z :=
  if starts_with lit s then read_digits 4 0%Z (skipn (length lit) s) else None.

(** [re.search(lit + r'(\d{4})', s)]: the leftmost match. *)
Fixpoint re_search (lit s : str) : option Z :=
  match match_here lit s with
  | Some y => Some y
  | None =>
    match s with
    | [] => None
    | _ :: s' => re_search lit s'
    end
  end.

(** The literal part of each pattern; every pattern ends in [(\d{4})]. *)
Definition year_patterns : list str :=
  [u "de "; u "en "; u "année "; u ""].

Definition year_in_range (current_year y : Z) : bool :=
  ((1900 <=? y) && (y <=? current_year))%Z.

Fixpoint extract_year_from (current_year : Z) (patterns : list str) (text : str)
  : option Z :=
  match patterns with
  | [] => None
  | pattern :: rest =>
    match re_search pattern text with
    | Some y =>
      if year_in_range current_year y then Some y
      else extract_year_from current_year rest text
    | None => extract_year_from current_year rest text
    end
  end.

Definition extract_year (current_year : Z) (text : str) : option Z :=
  extract_year_from current_year year_patterns text.

(** *** [analyze_request] (chatbot.py 232-274) *)

(** The body of the loop over the classified rows. *)
Definition classify_step (f : filters) (word_info : word_row) : filters :=
  let f1 :=
    if str_eqb (category word_info) (u "genre") then
      if negb (mem (subcategory word_info) (genres f))
      then set_genres f (genres f ++ [subcategory word_info]) else f
    else if str_eqb (category word_info) (u "theme") then
      if negb (mem (subcategory word_info) (themes f))
      then set_themes f (themes f ++ [subcategory word_info]) else f
    else f in
  set_keywords f1 (keywords f1 ++ [word word_info]).

(** The [if / elif / elif] over the quality indicators. *)
Definition quality_signal (text : str) (f : filters) : filters :=
  if any_in (dict_get QUALITY_INDICATORS (u "populaire") []) text then
    set_sort_by f (u "popularity")
  else if any_in (dict_get QUALITY_INDICATORS (u "critique") []) text then
    set_rating_min (set_sort_by f (u "rating")) (Some 7%float)
  else if any_in (dict_get QUALITY_INDICATORS (u "inconnu") []) text then
    set_rating_min (set_prefer_unknown f true) (Some 6.5%float)
  else f.

Definition analyze_request (current_year : Z) (db : database) (text : str) : filters :=
  let text := py_lower ext text in
  let filters0 :=
    match extract_year current_year text with
    | Some y => if (y =? 0)%Z then default_filters else set_year default_filters (Some y)
    | None => default_filters
    end in
  let filters1 := fold_left classify_step (get_significant_words db text) filters0 in
  quality_signal text filters1.

End Analysis.

(** ** The query planner and the ranking (chatbot.py 363-440) *)

(** The Python values bound as SQL parameters and held by result rows. *)
Inductive pyval :=
| PyNone
| PyInt (z : Z)
| PyFloat (f : float)
| PyStr (s : str).

(** A row of the final [SELECT *, (...) as weighted_score]. *)
Record ranked := {
  row : movie_row;
  weighted_score : float
}.

(** [CAST(vote_count AS FLOAT)] of a 64-bit integer: the nearest float.  The
    primitive conversion reads 63 bits, so the sign is set apart, and so is
    -2^63, which no 63-bit integer negates. *)
Definition cast_float (z : Z) : float :=
  if (z =? - 9223372036854775808)%Z then (- 9223372036854775808)%float
  else if (z <? 0)%Z then (- PrimFloat.of_uint63 (Uint63.of_Z (- z)))%float
  else PrimFloat.of_uint63 (Uint63.of_Z z).

(** [vote_average * (CAST(vote_count AS FLOAT) / 1000.0) + popularity / 100.0] *)
Definition score (vote_average : float) (vote_count : Z) (popularity : float) : float :=
  (vote_average * (cast_float vote_count / 1000) + popularity / 100)%float.

Definition with_score (m : movie_row) : ranked :=
  {| row := m;
     weighted_score := score (vote_average m) (vote_count m) (popularity m) |}.

(** [CASE WHEN ? = 'popularity' THEN popularity WHEN ? = 'rating' THEN
    vote_average ELSE weighted_score END], both parameters bound to [sort_by]. *)
Definition order_key (sort_by : str) (r : ranked) : float :=
  if str_eqb sort_by (u "popularity") then popularity (row r)
  else if str_eqb sort_by (u "rating") then vote_average (row r)
  else weighted_score r.

(** [x] may come before [y] under [ORDER BY ... DESC]: NULL sorts below every
    number, so it comes last. *)
Definition desc_before (x y : float) : bool :=
  if PrimFloat.is_nan y then true
  else if PrimFloat.is_nan x then false
  else (y <=? x)%float.

(** The sorter: insertion from the end of the scan, which keeps rows of equal
    key in scan order (SQL leaves the order of ties open). *)
Fixpoint insert_desc (key : ranked -> float) (r : ranked) (l : list ranked)
  : list ranked :=
  match l with
  | [] => [r]
  | h :: t =>
    if desc_before (key r) (key h) then r :: l
    else h :: insert_desc key r t
  end.

Definition sort_desc (key : ranked -> float) (l : list ranked) : list ranked :=
  fold_right (insert_desc key) [] l.

(** The text appended to [theme_conditions] for each theme word. *)
Definition theme_condition : str :=
  u "(LOWER(overview) LIKE ? OR LOWER(title) LIKE ?)".

Section Planner.

Variable ext : unicode_ext.

(** The engine's evaluation of a [WHERE] text, with its bound parameters, on
    one row of [movies] (SQLite itself is not part of the repository). *)
Variable sqlite_where : str -> list pyval -> movie_row -> bool.

(** [f"%{w.lower()}%"] *)
Definition like_param (w : str) : pyval :=
  PyStr (u "%" ++ py_lower ext w ++ u "%").

Definition or_group (conds : list str) : list str :=
  match conds with
  | [] => []
  | _ => [u "(" ++ join (u " OR ") conds ++ u ")"]
  end.

(** [if filters['genres']: ...] *)
Definition genre_clause (f : filters) : list str * list pyval :=
  (or_group (map (fun _ => u "LOWER(genres) LIKE ?") (genres f)),
   map like_param (genres f)).

(** The words looked up for the requested themes:
    [THEME_MAPPING.get(theme, [])] for each theme, in order. *)
Definition theme_words (f : filters) : list str :=
  flat_map (fun theme => dict_get THEME_MAPPING theme []) (themes f).

(** [if filters['themes']: ...] *)
Definition theme_clause (f : filters) : list str * list pyval :=
  (or_group (map (fun _ => theme_condition) (theme_words f)),
   flat_map (fun w => [like_param w; like_param w]) (theme_words f)).

Definition truthy_int (o : option Z) : bool :=
  match o with
  | Some z => negb (z =? 0)%Z
  | None => false
  end.

Definition truthy_float (o : option float) : bool :=
  match o with
  | Some x => negb (x =? 0)%float
  | None => false
  end.

Definition is_period (f : filters) (name : string) : bool :=
  match period f with
  | Some p => str_eqb p (u name)
  | None => false
  end.

(** [if filters['year'] / elif period == 'recent' / elif period == 'classique'] *)
Definition year_clause (current_year : Z) (f : filters) : list str * list pyval :=
  if truthy_int (year f) then
    ([u "release_year = ?"],
     [match year f with Some y => PyInt y | None => PyNone end])
  else if is_period f "recent" then
    ([u "release_year >= ?"], [PyInt (current_year - 2)])
  else if is_period f "classique" then
    ([u "release_year <= ?"], [PyInt (current_year - 20)])
  else ([], []).

(** [if filters['rating_min']: ...] *)
Definition rating_clause (f : filters) : list str * list pyval :=
  if truthy_float (rating_min f) then
    ([u "vote_average >= ?"],
     [match rating_min f with Some x => PyFloat x | None => PyNone end])
  else ([], []).

Definition clauses (current_year : Z) (f : filters)
  : list (list str * list pyval) :=
  [genre_clause f; theme_clause f; year_clause current_year f; rating_clause f].

Definition conditions (current_year : Z) (f : filters) : list str :=
  flat_map fst (clauses current_year f).

Definition params (current_year : Z) (f : filters) : list pyval :=
  flat_map snd (clauses current_year f).

(** [" AND ".join(conditions) if conditions else "1=1"] *)
Definition where_clause (current_year : Z) (f : filters) : str :=
  match conditions current_year f with
  | [] => u "1=1"
  | cs => join (u " AND ") cs
  end.

(** The statement executed: filter, score, [ORDER BY ... DESC], [LIMIT 5]. *)
Definition run_query (current_year : Z) (db : database) (f : filters)
  : list ranked :=
  firstn 5
    (sort_desc (order_key (sort_by f))
       (map with_score
          (filter (sqlite_where (where_clause current_year f)
                                (params current_year f))
                  (movies db)))).

End Planner.

(** ** The result formatter (chatbot.py 442-458, 484-488) *)

(** The object handed to [format_movie_result]: a dict, or a [sqlite3.Row]
    (what the cursor of [LocalMovieDatabase] yields: [row_factory =
    sqlite3.Row]), which is indexed by column name but has no [get] method. *)
Inductive record_obj :=
| PyDict (items : dict pyval)
| SqliteRow (cols : dict pyval).

Fixpoint lookup (V : Type) (d : dict V) (k : str) : option V :=
  match d with
  | [] => None
  | (k', v) :: d' => if str_eqb k k' then Some v else lookup d' k
  end.

(** [movie[k]]; [None] stands for the exception raised ([KeyError] for a
    dict, [IndexError] for a row). *)
Definition getitem (movie : record_obj) (k : string) : option pyval :=
  match movie with
  | PyDict items => lookup items (u k)
  | SqliteRow cols => lookup cols (u k)
  end.

(** [movie.get(k, default)]; a [sqlite3.Row] raises [AttributeError]. *)
Definition get_method (movie : record_obj) (k : string) (default : pyval)
  : option pyval :=
  match movie with
  | PyDict items =>
    Some match lookup items (u k) with Some v => v | None => default end
  | SqliteRow _ => None
  end.

(** The dict returned by [format_movie_result], one field per key:
    titre, année, genre, note, vote_count, popularité, description,
    weighted_score. *)
Record formatted := {
  titre : pyval;
  annee : pyval;
  genre : pyval;
  note : pyval;
  res_vote_count : pyval;
  popularite : pyval;
  description : pyval;
  res_weighted_score : pyval
}.

(** Sequencing of steps that may raise. *)
Definition bind (A B : Type) (x : option A) (k : A -> option B) : option B :=
  match x with
  | Some a => k a
  | None => None
  end.

Notation "x <- e ;; k" := (bind e (fun x => k))
  (at level 61, e at next level, right associativity).

(** [format_movie_result]: the items of the dict display are evaluated in
    order; any exception is caught by [except Exception] and the function
    returns Python's [None], here [None]. *)
Definition format_movie_result (movie : record_obj) : option formatted :=
  t <- getitem movie "title" ;;
  y <- getitem movie "release_year" ;;
  g <- getitem movie "genres" ;;
  n <- getitem movie "vote_average" ;;
  c <- getitem movie "vote_count" ;;
  p <- get_method movie "popularity" (PyInt 0) ;;
  d <- getitem movie "overview" ;;
  n' <- getitem movie "vote_average" ;;
  w <- get_method movie "weighted_score" n' ;;
  Some {| titre := t; annee := y; genre := g; note := n; res_vote_count := c;
          popularite := p; description := d; res_weighted_score := w |}.

(** The value Python reads from a [REAL] column. *)
Definition py_real (x : float) : pyval :=
  if PrimFloat.is_nan x then PyNone else PyFloat x.

(** The [sqlite3.Row] of one row of the ranked [SELECT]. *)
Definition to_row (r : ranked) : record_obj :=
  SqliteRow [
    (u "title", PyStr (title (row r)));
    (u "overview", PyStr (overview (row r)));
    (u "release_year",
       match release_year (row r) with Some y => PyInt y | None => PyNone end);
    (u "genres", PyStr (movie_genres (row r)));
    (u "vote_average", py_real (vote_average (row r)));
    (u "vote_count", PyInt (vote_count (row r)));
    (u "popularity", py_real (popularity (row r)));
    (u "weighted_score", py_real (weighted_score r))
  ].

(** [[format_movie_result(movie) for movie in movies]] *)
Definition format_batch (movies : list record_obj) : list (option formatted) :=
  map format_movie_result movies.

(** [search_movies_optimized]: the rows of the query, formatted.  (The list
    [query_words] is only logged, and the handler that answers [[]] on a
    storage error is not modelled.) *)
Definition search_movies_optimized (ext : unicode_ext)
    (sqlite_where : str -> list pyval -> movie_row -> bool)
    (current_year : Z) (db : database) (f : filters) : list (option formatted) :=
  match run_query ext sqlite_where current_year db f with
  | [] => []
  | ms => format_batch (map to_row ms)
  end.

(** The description shown by [generate_response] (chatbot.py 484-488):
    [if len(description) > 200: description = description[:197] + "..."].
    [None] stands for the [TypeError] that [len] raises on a value that is
    not a string. *)
Definition display_description (description : pyval) : option str :=
  match description with
  | PyStr s =>
    Some (if (200 <? length s)%nat then firstn 197 s ++ u "..." else s)
  | _ => None
  end.

(** An oracle that knows no character above Latin-1.  It serves to run the
    definitions on Latin-1 text, where no oracle is ever consulted. *)
Definition latin1_only : unicode_ext :=
  {| ext_lower := fun s => s;
     ext_word := fun _ => false;
     ext_digit := fun _ => false;
     ext_decimal := fun _ => None |}.

(** The store right after [initialize_db] on empty tables, when the import
    fetches no movie. *)
Definition seeded_db : database := initialize_db [] empty_db.

(** ** The administrative commands and the listing (chatbot.py 531-632) *)

(** What the Python runtime does beyond the tables above: whitespace above
    Latin-1, [int] of a string ([None] for [ValueError]), the two renderings
    of a float ([str] and the format [.1f]), and the format [.1f] of an
    integer ([None] for the [OverflowError] of an integer too large for a
    float). *)
Record python_ext := {
  ext_space : char -> bool;
  py_int : str -> option Z;
  float_str : float -> str;
  float_1f : float -> str;
  int_1f : Z -> option str
}.

(** [str.isspace] on Latin-1: U+0009..U+000D, U+001C..U+0020, U+0085 and
    U+00A0. *)
Definition space_latin1 (c : char) : bool :=
  between 9 13 c || between 28 32 c || (c =? 133)%N || (c =? 160)%N.

(** [str(z)] for an integer (of the size SQLite holds). *)
Definition str_of_Z (z : Z) : str := u (NilZero.string_of_int (Z.to_int z)).

(** [sep.split] by a separator: the pieces between the leftmost
    non-overlapping occurrences of [sep].  [cur] is the piece being read, last
    character first; [skip] counts the characters of a separator still to
    pass. *)
Fixpoint split_on_go (sep cur : str) (skip : nat) (s : str) : list str :=
  match s with
  | [] => [rev cur]
  | c :: s' =>
    match skip with
    | S k => split_on_go sep cur k s'
    | O =>
      if starts_with sep s
      then rev cur :: split_on_go sep [] (length sep - 1) s'
      else split_on_go sep (c :: cur) 0 s'
    end
  end.

Definition split_on (sep s : str) : list str := split_on_go sep [] 0 s.

(** [max(1, min(page, total_pages))] *)
Definition clamp_page (page total_pages : Z) : Z :=
  Z.max 1 (Z.min page total_pages).

(** [(total_movies + per_page - 1) // per_page] *)
Definition page_count (total_movies per_page : Z) : Z :=
  (total_movies + per_page - 1) / per_page.

(** [LIMIT ? OFFSET ?]: a negative offset counts as zero and a negative limit
    is no limit. *)
Definition limit_offset (A : Type) (limit offset : Z) (rows : list A) : list A :=
  let rest := skipn (Z.to_nat offset) rows in
  if (limit <? 0)%Z then rest else firstn (Z.to_nat limit) rest.

Fixpoint insert_by_title (m : movie_row) (l : list movie_row) : list movie_row :=
  match l with
  | [] => [m]
  | h :: t =>
    if title_leb (title m) (title h) then m :: l
    else h :: insert_by_title m t
  end.

Definition order_by_title (l : list movie_row) : list movie_row :=
  fold_right insert_by_title [] l.

(** An integer that can be bound to a statement: SQLite integers have 64
    bits, and binding another one raises [OverflowError]. *)
Definition sqlite_int (z : Z) : bool :=
  ((- 9223372036854775808 <=? z) && (z <=? 9223372036854775807))%Z.

(** What [list_all_movies] computes before it writes the answer: the page
    shown, the number of pages and the rows of the page.  [None] stands for
    the exceptions that the function answers with its error message: the
    [ZeroDivisionError] of [per_page = 0], and the [OverflowError] of a limit
    or an offset that cannot be bound. *)
Record listing := {
  shown_page : Z;
  total_pages : Z;
  page_rows : list movie_row
}.

Definition list_page (db : database) (page per_page : Z) : option listing :=
  if (per_page =? 0)%Z then None
  else
    let total_movies := Z.of_nat (length (movies db)) in
    let total_pages := page_count total_movies per_page in
    let page := clamp_page page total_pages in
    let offset := ((page - 1) * per_page)%Z in
    if sqlite_int per_page && sqlite_int offset then
      Some {| shown_page := page;
              total_pages := total_pages;
              page_rows :=
                limit_offset per_page offset (order_by_title (movies db)) |}
    else None.

Section Runtime.

Variable ext : unicode_ext.
Variable rt : python_ext.

(** [c.isspace()] *)
Definition is_space (c : char) : bool :=
  if is_latin1 c then space_latin1 c else ext_space rt c.

Fixpoint drop_spaces (s : str) : str :=
  match s with
  | [] => []
  | c :: s' => if is_space c then drop_spaces s' else s
  end.

(** [s.split(maxsplit=n)] and [s.split()] ([maxsplit = None]): the fields
    between runs of whitespace; once [n] fields are taken, the rest of the
    text without its leading whitespace is the last field.  [cur] is the field
    being read, last character first. *)
Fixpoint split_go (maxsplit : option nat) (cur : option str) (s : str)
  : list str :=
  match cur with
  | Some field =>
    match s with
    | [] => [rev field]
    | c :: s' =>
      if is_space c then rev field :: split_go maxsplit None s'
      else split_go maxsplit (Some (c :: field)) s'
    end
  | None =>
    match maxsplit with
    | Some O =>
      match drop_spaces s with
      | [] => []
      | rest => [rest]
      end
    | _ =>
      match s with
      | [] => []
      | c :: s' =>
        if is_space c then split_go maxsplit None s'
        else split_go (option_map Nat.pred maxsplit) (Some [c]) s'
      end
    end
  end.

Definition split (maxsplit : option nat) (s : str) : list str :=
  split_go maxsplit None s.

(** [str(v)] inside an f-string. *)
Definition py_str (v : pyval) : str :=
  match v with
  | PyNone => u "None"
  | PyInt z => str_of_Z z
  | PyFloat x => float_str rt x
  | PyStr s => s
  end.

(** [f"{v:.1f}"]; [None] stands for the exception raised on a value that is
    not a number. *)
Definition py_format_1f (v : pyval) : option str :=
  match v with
  | PyFloat x => Some (float_1f rt x)
  | PyInt z => int_1f rt z
  | _ => None
  end.

(** The answer written by [list_all_movies] (chatbot.py 531-567). *)
Definition movie_line (m : movie_row) : str :=
  u "🎬 " ++ title m ++ u " ("
  ++ py_str match release_year m with Some y => PyInt y | None => PyNone end
  ++ u ") " ++ u "- ⭐ " ++ py_str (py_real (vote_average m)) ++ u "/10 ("
  ++ str_of_Z (vote_count m) ++ u " votes)" ++ [10%N].

Definition list_all_movies (db : database) (page per_page : Z) : str :=
  match list_page db page per_page with
  | None =>
    u "Désolé, une erreur est survenue lors de la récupération de la liste des films."
  | Some l =>
    u "Liste des films (page " ++ str_of_Z (shown_page l) ++ u "/"
    ++ str_of_Z (total_pages l) ++ u "):" ++ [10%N; 10%N]
    ++ concat (map movie_line (page_rows l))
    ++ [10%N] ++ u "--- Page " ++ str_of_Z (shown_page l) ++ u "/"
    ++ str_of_Z (total_pages l) ++ u " ---"
    ++ (if (1 <? total_pages l)%Z
        then [10%N] ++ u "Utilisez 'list page X' pour voir d'autres pages"
        else [])
  end.

(** One turn of the loop of [main]: the branch taken for a line of input. *)
Inductive turn :=
| DoQuit
| DoList (page : Z)
| BadPage
| DoAddWord (w cat sub : str)
| BadAddWord
| DoAddStop (w : str)
| BadAddStop
| DoChat.

Definition read_turn (user_input : str) : turn :=
  let user_input_lower := py_lower ext user_input in
  if str_eqb user_input_lower (u "quit") then DoQuit
  else if str_eqb user_input_lower (u "list") then DoList 1
  else if starts_with (u "list page ") user_input_lower then
    match nth_error (split_on (u "page ") user_input_lower) 1 with
    | Some arg =>
      match py_int rt arg with
      | Some page => DoList page
      | None => BadPage
      end
    | None => BadPage (* not reached: the line holds "page " *)
    end
  else if starts_with (u "add word ") user_input_lower then
    match split (Some 4) user_input_lower with
    | [_; _; w; cat; sub] => DoAddWord w cat sub
    | _ => BadAddWord
    end
  else if starts_with (u "add stop ") user_input_lower then
    match split None user_input_lower with
    | [_; _; w] => DoAddStop w
    | _ => BadAddStop
    end
  else DoChat.

(** The store after the turn. *)
Definition store_after (db : database) (t : turn) : database :=
  match t with
  | DoAddWord w cat sub => add_word db w cat sub
  | DoAddStop w => add_stop db w
  | _ => db
  end.

(** *** [generate_response] and [chat_with_bot] (chatbot.py 460-515) *)

Definition truthy_str (o : option str) : bool :=
  match o with
  | Some (_ :: _) => true
  | _ => false
  end.

Definition intro (f : filters) : str :=
  u "Voici les films que j'ai trouvés "
  ++ match genres f with
     | [] => []
     | gs => u "dans le genre " ++ join (u ", ") gs ++ u " "
     end
  ++ (if truthy_str (mood f)
      then u "avec une ambiance "
           ++ match mood f with Some m => m | None => [] end ++ u " "
      else [])
  ++ (if truthy_str (period f)
      then u "de période "
           ++ match period f with Some p => p | None => [] end ++ u " "
      else [])
  ++ u ":" ++ [10%N; 10%N].

(** The lines written for one entry of [movies_info]; [None] stands for the
    exception raised ([TypeError] on an entry that is Python's [None], on a
    score that is not a number or on a description that has no length). *)
Definition movie_block (movie : option formatted) : option str :=
  m <- movie ;;
  score <- py_format_1f (res_weighted_score m) ;;
  d <- display_description (description m) ;;
  Some (u "🎬 " ++ py_str (titre m) ++ u " (" ++ py_str (annee m) ++ u ")" ++ [10%N]
        ++ u "📝 Genre : " ++ py_str (genre m) ++ [10%N]
        ++ u "⭐ Note : " ++ py_str (note m) ++ u "/10 ("
        ++ py_str (res_vote_count m) ++ u " votes)" ++ [10%N]
        ++ u "📊 Score ajusté : " ++ score ++ u "/10" ++ [10%N]
        ++ u "📈 Popularité : " ++ py_str (popularite m) ++ [10%N]
        ++ u "📖 " ++ d ++ [10%N]
        ++ concat (repeat (u "─") 50) ++ [10%N]).

Fixpoint movie_blocks (movies_info : list (option formatted)) : option str :=
  match movies_info with
  | [] => Some []
  | movie :: rest =>
    b <- movie_block movie ;;
    bs <- movie_blocks rest ;;
    Some (b ++ bs)
  end.

Definition no_result : str :=
  u "Désolé, je n'ai pas trouvé de films correspondant à vos critères.".

Definition generate_response (movies_info : list (option formatted))
    (f : filters) : option str :=
  match movies_info with
  | [] => Some no_result
  | _ =>
    bs <- movie_blocks movies_info ;;
    Some (intro f ++ bs)
  end.


(** *** The keyword rows of [extract_and_store_keywords] (chatbot.py 298-336) *)

(** [extract_significant_words] on a column that may hold NULL. *)
Definition extract_words_of (text : option str) : list str :=
  match text with
  | None => []
  | Some t => extract_significant_words ext t
  end.

End Runtime.

(** [Counter(words).items()]: each distinct word with its number of
    occurrences, in the order of first occurrence. *)
Fixpoint counter_add (w : str) (c : list (str * nat)) : list (str * nat) :=
  match c with
  | [] => [(w, 1)]
  | (w', n) :: c' =>
    if str_eqb w w' then (w', S n) :: c' else (w', n) :: counter_add w c'
  end.

Definition Counter (ws : list str) : list (str * nat) :=
  fold_left (fun c w => counter_add w c) ws [].

(** A tuple of [keywords_data]: (movie_id, word, count, source). *)
Record keyword_row := {
  kw_movie : Z;
  kw_word : str;
  kw_count : nat;
  kw_source : str
}.

Definition source_rows (rowid : Z) (weight : nat) (source : string)
    (c : list (str * nat)) : list keyword_row :=
  map (fun wn => {| kw_movie := rowid; kw_word := fst wn;
                    kw_count := snd wn * weight; kw_source := u source |}) c.

(** The list [keywords_data] built for one movie: the words of the title
    with three times their count, those of the overview with their count,
    those of the genres with twice their count. *)
Definition keywords_data (ext : unicode_ext) (rowid : Z)
    (title_text overview_text genres_text : option str) : list keyword_row :=
  source_rows rowid 3 "title" (Counter (extract_words_of ext title_text))
  ++ source_rows rowid 1 "overview" (Counter (extract_words_of ext overview_text))
  ++ source_rows rowid 2 "genre" (Counter (extract_words_of ext genres_text)).

(** A runtime that knows no whitespace above Latin-1 and reads no integer;
    it serves to run the definitions on inputs that need neither. *)
Definition plain_runtime : python_ext :=
  {| ext_space := fun _ => false;
     py_int := fun _ => None;
     float_str := fun _ => [];
     float_1f := fun _ => [];
     int_1f := fun _ => None |}.

(** ** Vocabulary of the statements *)

(** [p] occurs in [s]: some text, then [p], then some text. *)
Definition occurs (p s : str) : Prop :=
  exists pre post, s = pre ++ p ++ post.

(** Some word of [group] occurs in [text]. *)
Definition has_indicator (group : list string) (text : str) : Prop :=
  exists kw, In kw (map u group) /\ occurs kw text.



(** The pattern with literal part [p] finds the year [y] in [text], and [y] is
    in range. *)
Definition yields (ext : unicode_ext) (current_year : Z) (text p : str) (y : Z)
  : Prop :=
  re_search ext p text = Some y /\ (1900 <= y <= current_year)%Z.

(** The pattern finds no year in range. *)
Definition fails (ext : unicode_ext) (current_year : Z) (text p : str) : Prop :=
  forall y, ~ yields ext current_year text p y.


(** The first occurrences of [xs] that are not in [seen], in order. *)
Fixpoint first_seen (seen : list str) (xs : list str) : list str :=
  match xs with
  | [] => []
  | x :: xs' =>
    if mem x seen then first_seen seen xs'
    else x :: first_seen (seen ++ [x]) xs'
  end.

(** The subcategories of the rows of one category, in row order. *)
Definition subcategories_of (cat : string) (rows : list word_row) : list str :=
  map subcategory (filter (fun r => str_eqb (category r) (u cat)) rows).

(** The rows of a table that hold the key [w]. *)
Definition rows_keyed (w : str) (t : list word_row) : list word_row :=
  filter (fun r => str_eqb (word r) w) t.

(** One entry per word: the primary key of [significant_words]. *)
Definition unique_keys (t : list word_row) : Prop := NoDup (map word t).

(** Two filter sets agree on every field that the classification loop does
    not write. *)
Definition same_scalars (f g : filters) : Prop :=
  mood f = mood g /\ period f = period g /\ year f = year g
  /\ rating_min f = rating_min g /\ sort_by f = sort_by g
  /\ prefer_unknown f = prefer_unknown g /\ exclude_genres f = exclude_genres g.

(** The keys that [format_movie_result] reads with [movie[...]]. *)
Definition required_keys : list string :=
  ["title"; "release_year"; "genres"; "vote_average"; "vote_count";
   "overview"]%string.

(** The row that the query returns for the movie Heat: a [sqlite3.Row] with
    every column of the [SELECT], as [fetchall] hands it to
    [format_movie_result]. *)
Definition heat_row : record_obj :=
  to_row (with_score
            {| title := u "Heat"; overview := u "Un braquage.";
               release_year := Some 1995%Z; movie_genres := u "crime, drame";
               vote_average := 8.5; vote_count := 7000; popularity := 40 |}).

(** The store after [add word bolide theme voiture]. *)
Definition db_with_bolide : database :=
  add_word seeded_db (u "bolide") (u "theme") (u "voiture").

(** The filters of [analyze_request] when the [if / elif / elif] over the
    quality words starts. *)
Definition before_signal (ext : unicode_ext) (current_year : Z) (db : database)
    (text : str) : filters :=
  let t := py_lower ext text in
  fold_left classify_step (get_significant_words ext db t)
    match extract_year ext current_year t with
    | Some y => if (y =? 0)%Z then default_filters else set_year default_filters (Some y)
    | None => default_filters
    end.

(** The last row of a list of writes that carries the key [w]. *)
Fixpoint last_keyed (w : str) (rows : list word_row) : option word_row :=
  match rows with
  | [] => None
  | r :: rest =>
    match last_keyed w rest with
    | Some r' => Some r'
    | None => if str_eqb (word r) w then Some r else None
    end
  end.

(** The number of placeholders [?] in an SQL text. *)
Definition placeholders (s : str) : nat := length (filter (N.eqb 63) s).

(** Four consecutive decimal digits that spell [y] occur in [text]. *)
Definition year_written (ext : unicode_ext) (text : str) (y : Z) : Prop :=
  exists c1 c2 c3 c4 d1 d2 d3 d4,
    occurs [c1; c2; c3; c4] text
    /\ decimal_value ext c1 = Some d1 /\ decimal_value ext c2 = Some d2
    /\ decimal_value ext c3 = Some d3 /\ decimal_value ext c4 = Some d4
    /\ y = (1000 * d1 + 100 * d2 + 10 * d3 + d4)%Z.

(** A text without whitespace. *)
Definition no_space (rt : python_ext) (w : str) : Prop :=
  Forall (fun c => is_space rt c = false) w.

(** A non-empty text that does not start with whitespace. *)
Definition starts_solid (rt : python_ext) (w : str) : Prop :=
  match w with
  | [] => False
  | c :: _ => is_space rt c = false
  end.

(** The number of occurrences of [w] in a list of words. *)
Definition occurrences (w : str) (ws : list str) : nat :=
  length (filter (str_eqb w) ws).

(** The count that a counter holds for [w] (0 when it holds none). *)
Fixpoint counted (w : str) (c : list (str * nat)) : nat :=
  match c with
  | [] => 0
  | (w', n) :: c' => if str_eqb w w' then n else counted w c'
  end.

(** An entry of [movies_info] that [generate_response] can write: a record
    whose score is a number that [.1f] can format and whose description is a
    string. *)
Definition displayable (rt : python_ext) (movie : option formatted) : Prop :=
  match movie with
  | Some m =>
    match res_weighted_score m with
    | PyFloat _ => True
    | PyInt z => int_1f rt z <> None
    | _ => False
    end
    /\ match description m with
       | PyStr _ => True
       | _ => False
       end
  | None => False
  end.

(** A field of a command: not empty, without whitespace. *)
Definition field (rt : python_ext) (w : str) : Prop :=
  w <> [] /\ no_space rt w.

(** What [split] may return with [k] splits left: fields, and after the last
    split one text that starts with a character that is not whitespace. *)
Fixpoint fields_ok (rt : python_ext) (k : option nat) (out : list str) : Prop :=
  match out with
  | [] => True
  | w :: rest =>
    match k with
    | Some O => starts_solid rt w /\ rest = []
    | _ => field rt w /\ fields_ok rt (option_map Nat.pred k) rest
    end
  end.

(** A catalogue of three movies. *)
Definition three_movies : database :=
  {| significant_words := [];
     stop_words := [];
     movies := [
       {| title := u "Heat"; overview := u "Un braquage."; release_year := Some 1995%Z;
          movie_genres := u "crime, drame"; vote_average := 8.5; vote_count := 7000;
          popularity := 40 |};
       {| title := u "Alien"; overview := u "Dans l'espace."; release_year := Some 1979%Z;
          movie_genres := u "horreur, science-fiction"; vote_average := 8;
          vote_count := 14000; popularity := 60 |};
       {| title := u "Brazil"; overview := u ""; release_year := None;
          movie_genres := u "science-fiction"; vote_average := 7.5;
          vote_count := 3000; popularity := 20 |}
     ];
     max_variables := 32766 |}.

(** The rows that [list_all_movies] shows for a requested page. *)
Definition rows_of_page (db : database) (per_page page : Z) : list movie_row :=
  match list_page db page per_page with
  | Some l => page_rows l
  | None => []
  end.

(** The number of pages of the listing. *)
Definition pages_of (db : database) (per_page : Z) : Z :=
  page_count (Z.of_nat (length (movies db))) per_page.

(** A list of movies in the order of their titles. *)
Definition by_title (l : list movie_row) : Prop :=
  StronglySorted (fun a b => title_leb (title a) (title b) = true) l.

(** The rows come in the order of their keys. *)
Definition by_word (l : list word_row) : Prop :=
  StronglySorted (fun a b => title_leb (word a) (word b) = true) l.

(** ** Strings *)

Lemma str_eqb_eq (a b : str) : str_eqb a b = true <-> a = b.
Proof.
  revert b; induction a as [|x a IH]; intros [|y b]; simpl;
    try (split; [discriminate | discriminate]); try tauto.
  rewrite andb_true_iff, N.eqb_eq, IH.
  split; [intros [-> ->]; reflexivity | intros H; inversion H; auto].
Qed.

Lemma str_eqb_refl (a : str) : str_eqb a a = true.
Proof. now apply str_eqb_eq. Qed.

Lemma str_eqb_neq (a b : str) : str_eqb a b = false <-> a <> b.
Proof.
  rewrite <- str_eqb_eq. destruct (str_eqb a b); split; congruence.
Qed.

Lemma mem_In (w : str) (l : list str) : mem w l = true <-> In w l.
Proof.
  unfold mem. rewrite existsb_exists. split.
  - intros (x & Hin & Heq). apply str_eqb_eq in Heq. now subst.
  - intros Hin. exists w. split; [assumption | apply str_eqb_refl].
Qed.

Lemma mem_not_In (w : str) (l : list str) : mem w l = false <-> ~ In w l.
Proof.
  rewrite <- mem_In. destruct (mem w l); split; congruence.
Qed.

Lemma starts_with_spec (p s : str) :
  starts_with p s = true <-> exists rest, s = p ++ rest.
Proof.
  revert s; induction p as [|x p IH]; intros s; simpl.
  - split; [intros _; now exists s | reflexivity].
  - destruct s as [|y s].
    + split; [discriminate | intros [rest H]; discriminate].
    + rewrite andb_true_iff, N.eqb_eq, IH. split.
      * intros [-> [rest ->]]. now exists rest.
      * intros [rest H]. inversion H; subst. split; [reflexivity | now exists rest].
Qed.

Lemma str_in_spec (p s : str) : str_in p s = true <-> occurs p s.
Proof.
  unfold occurs. induction s as [|c s IH]; simpl.
  - rewrite orb_false_r, starts_with_spec. split.
    + intros [rest H]. now exists [], rest.
    + intros (pre & post & H). symmetry in H.
      apply app_eq_nil in H as [-> H]. apply app_eq_nil in H as [-> ->].
      now exists [].
  - rewrite orb_true_iff, starts_with_spec, IH. split.
    + intros [[rest H] | (pre & post & H)].
      * now exists [], rest.
      * exists (c :: pre), post. now rewrite H.
    + intros (pre & post & H). destruct pre as [|c' pre].
      * left. now exists post.
      * right. inversion H; subst. now exists pre, post.
Qed.

Lemma any_in_spec (group : list str) (text : str) :
  any_in group text = true <-> exists kw, In kw group /\ occurs kw text.
Proof.
  unfold any_in. rewrite existsb_exists.
  split; intros (kw & Hin & H); exists kw; (split; [assumption|]);
    now apply str_in_spec.
Qed.

Lemma py_lower_empty (ext : unicode_ext) : py_lower ext [] = [].
Proof. reflexivity. Qed.

(** ** The normaliser *)

Section NormalizerFacts.

Variable ext : unicode_ext.









Lemma extract_significant_words_filter (text : str) :
  extract_significant_words ext text =
  filter (significant ext STOP_WORDS) (findall_words ext (py_lower ext text)).
Proof. destruct text; reflexivity. Qed.

End NormalizerFacts.


(** ** Year extraction *)

Section YearFacts.

Variable ext : unicode_ext.
Variable current_year : Z.

Lemma year_in_range_spec (y : Z) :
  year_in_range current_year y = true <-> (1900 <= y <= current_year)%Z.
Proof.
  unfold year_in_range. rewrite andb_true_iff, !Z.leb_le. tauto.
Qed.

(** What [lit(\d{4})] matches at the start of a text: the literal, then four
    decimal digits, read in base ten. *)
Lemma match_here_spec (lit s : str) (y : Z) :
  match_here ext lit s = Some y <->
  exists c1 c2 c3 c4 d1 d2 d3 d4 rest,
    s = lit ++ c1 :: c2 :: c3 :: c4 :: rest
    /\ decimal_value ext c1 = Some d1 /\ decimal_value ext c2 = Some d2
    /\ decimal_value ext c3 = Some d3 /\ decimal_value ext c4 = Some d4
    /\ y = (1000 * d1 + 100 * d2 + 10 * d3 + d4)%Z.
Proof.
  unfold match_here. split.
  - destruct (starts_with lit s) eqn:Hs; [|discriminate].
    apply starts_with_spec in Hs as [rest ->].
    rewrite skipn_app, Nat.sub_diag, skipn_all. cbn [app skipn read_digits].
    destruct rest as [|c1 rest]; [discriminate|].
    destruct (decimal_value ext c1) as [d1|] eqn:H1; [|discriminate].
    destruct rest as [|c2 rest]; [discriminate|].
    destruct (decimal_value ext c2) as [d2|] eqn:H2; [|discriminate].
    destruct rest as [|c3 rest]; [discriminate|].
    destruct (decimal_value ext c3) as [d3|] eqn:H3; [|discriminate].
    destruct rest as [|c4 rest]; [discriminate|].
    destruct (decimal_value ext c4) as [d4|] eqn:H4; [|discriminate].
    intros H. injection H as <-.
    exists c1, c2, c3, c4, d1, d2, d3, d4, rest. repeat split; auto. lia.
  - intros (c1 & c2 & c3 & c4 & d1 & d2 & d3 & d4 & rest & -> & H1 & H2 & H3 & H4 & ->).
    replace (starts_with lit (lit ++ c1 :: c2 :: c3 :: c4 :: rest)) with true
      by (symmetry; apply starts_with_spec; now eexists).
    rewrite skipn_app, Nat.sub_diag, skipn_all. cbn [app skipn read_digits].
    rewrite H1, H2, H3, H4. f_equal. lia.
Qed.

(** [re_search] returns the match at the leftmost position that has one. *)
Lemma re_search_leftmost (lit s : str) (y : Z) :
  re_search ext lit s = Some y <->
  exists pre rest,
    s = pre ++ rest /\ match_here ext lit rest = Some y
    /\ forall pre' rest', s = pre' ++ rest' -> length pre' < length pre ->
                          match_here ext lit rest' = None.
Proof.
  induction s as [|c s IH]; simpl.
  - destruct (match_here ext lit []) as [y0|] eqn:Hm; split.
    + intros H. exists [], []. repeat split; [congruence|].
      intros pre' rest' _ Hlt. simpl in Hlt. lia.
    + intros (pre & rest & Hs & Hy & _). symmetry in Hs.
      apply app_eq_nil in Hs as [-> ->]. congruence.
    + discriminate.
    + intros (pre & rest & Hs & Hy & _). symmetry in Hs.
      apply app_eq_nil in Hs as [-> ->]. congruence.
  - destruct (match_here ext lit (c :: s)) as [y0|] eqn:Hm; split.
    + intros H. exists [], (c :: s). repeat split; [congruence|].
      intros pre' rest' _ Hlt. simpl in Hlt. lia.
    + intros (pre & rest & Hs & Hy & Hmin). destruct pre as [|c' pre].
      * simpl in Hs. subst rest. congruence.
      * specialize (Hmin [] (c :: s) eq_refl). simpl in Hmin.
        rewrite Hmin in Hm by lia. discriminate.
    + intros H. apply IH in H as (pre & rest & -> & Hy & Hmin).
      exists (c :: pre), rest. repeat split; auto.
      intros pre' rest' Hs Hlt. destruct pre' as [|c' pre'].
      * simpl in Hs. now subst rest'.
      * inversion Hs; subst. apply (Hmin pre' rest'); [assumption|].
        simpl in Hlt. lia.
    + intros (pre & rest & Hs & Hy & Hmin). destruct pre as [|c' pre].
      * simpl in Hs. subst rest. congruence.
      * inversion Hs; subst. apply IH. exists pre, rest. repeat split; auto.
        intros pre' rest' Hs' Hlt.
        apply (Hmin (c' :: pre') rest'); [now rewrite Hs'|simpl; lia].
Qed.

Lemma not_yields_fails (text p : str) :
  match re_search ext p text with
  | Some y => year_in_range current_year y = false
  | None => True
  end ->
  fails ext current_year text p.
Proof.
  intros H y [Hs Hr]. rewrite Hs in H.
  apply year_in_range_spec in Hr. congruence.
Qed.

Lemma extract_year_from_some (patterns : list str) (text : str) (y : Z) :
  extract_year_from ext current_year patterns text = Some y <->
  exists before p after,
    patterns = before ++ p :: after
    /\ yields ext current_year text p y
    /\ Forall (fails ext current_year text) before.
Proof.
  induction patterns as [|p0 rest IH]; simpl.
  - split; [discriminate|]. intros (before & p & after & H & _).
    destruct before; discriminate.
  - assert (Hskip : fails ext current_year text p0 ->
              (extract_year_from ext current_year rest text = Some y <->
               exists before p after,
                 p0 :: rest = before ++ p :: after
                 /\ yields ext current_year text p y
                 /\ Forall (fails ext current_year text) before)).
    { intros Hf. rewrite IH. split.
      - intros (before & p & after & -> & Hy & Hb).
        exists (p0 :: before), p, after.
        split; [reflexivity | split; [exact Hy | now constructor]].
      - intros (before & p & after & Heq & Hy & Hb).
        destruct before as [|q before]; inversion Heq; subst.
        + exfalso. exact (Hf y Hy).
        + inversion Hb; subst. exists before, p, after.
          split; [reflexivity | split; assumption]. }
    destruct (re_search ext p0 text) as [y0|] eqn:Hs.
    + destruct (year_in_range current_year y0) eqn:Hr.
      * split.
        -- intros H. injection H as <-. exists [], p0, rest.
           split; [reflexivity | split; [|constructor]].
           split; [assumption | now apply year_in_range_spec].
        -- intros (before & p & after & Heq & Hy & Hb).
           destruct before as [|q before]; inversion Heq; subst.
           ++ destruct Hy as [Hy _]. congruence.
           ++ inversion Hb; subst. exfalso. apply (H1 y0).
              split; [assumption | now apply year_in_range_spec].
      * apply Hskip. apply not_yields_fails. now rewrite Hs.
    + apply Hskip. apply not_yields_fails. now rewrite Hs.
Qed.

Lemma extract_year_from_none (patterns : list str) (text : str) :
  extract_year_from ext current_year patterns text = None <->
  Forall (fails ext current_year text) patterns.
Proof.
  induction patterns as [|p0 rest IH]; simpl.
  - split; [constructor | reflexivity].
  - destruct (re_search ext p0 text) as [y0|] eqn:Hs.
    + destruct (year_in_range current_year y0) eqn:Hr.
      * split; [discriminate|]. intros H. inversion H; subst.
        exfalso. apply (H2 y0). split; [assumption | now apply year_in_range_spec].
      * rewrite IH. split.
        -- intros H. constructor; [|assumption].
           apply not_yields_fails. now rewrite Hs.
        -- intros H. now inversion H.
    + rewrite IH. split.
      * intros H. constructor; [|assumption].
        apply not_yields_fails. now rewrite Hs.
      * intros H. now inversion H.
Qed.

End YearFacts.

(** C3.  Year extraction.  [extract_year] tries the patterns "de YYYY",
    "en YYYY", "année YYYY" and bare "YYYY" in this order, each at its
    leftmost match, and returns the four-digit year of the first pattern whose
    year lies in 1900..current year; it returns nothing exactly when no
    pattern finds a year in range.  Every year returned is in range.  "de
    1899" gives no year, and "en 2099" gives none as long as the current year
    is before 2099. *)
Theorem extract_year_first_pattern_in_range
  (ext : unicode_ext) (current_year : Z) (text : str) :
  year_patterns = [u "de "; u "en "; u "année "; u ""]
  /\ (forall y, extract_year ext current_year text = Some y <->
        exists before p after,
          year_patterns = before ++ p :: after
          /\ yields ext current_year text p y
          /\ Forall (fails ext current_year text) before)
  /\ (extract_year ext current_year text = None <->
        Forall (fails ext current_year text) year_patterns)
  /\ (forall y, extract_year ext current_year text = Some y ->
        (1900 <= y <= current_year)%Z)
  /\ extract_year ext current_year (u "de 1899") = None
  /\ extract_year ext current_year (u "en 2099")
     = (if (current_year <? 2099)%Z then None else Some 2099%Z).
Proof.
  split; [reflexivity|].
  split; [intros y; apply extract_year_from_some|].
  split; [apply extract_year_from_none|].
  split.
  { intros y H. apply extract_year_from_some in H
      as (before & p & after & _ & [_ Hr] & _). exact Hr. }
  split.
  - vm_compute. reflexivity.
  - unfold extract_year. cbn -[Z.leb Z.ltb].
    unfold year_in_range.
    destruct (Z.ltb_spec current_year 2099) as [Hlt | Hge].
    + replace (2099 <=? current_year)%Z with false
        by (symmetry; apply Z.leb_gt; lia).
      reflexivity.
    + replace (2099 <=? current_year)%Z with true
        by (symmetry; apply Z.leb_le; lia).
      reflexivity.
Qed.

(** ** Ranking *)








Section SortFacts.

Variable key : ranked -> float.







End SortFacts.



(** ** The filter extractor *)

Lemma same_scalars_refl (f : filters) : same_scalars f f.
Proof. unfold same_scalars. tauto. Qed.

Lemma same_scalars_trans (f g h : filters) :
  same_scalars f g -> same_scalars g h -> same_scalars f h.
Proof. unfold same_scalars. intuition congruence. Qed.

Lemma classify_step_scalars (f : filters) (r : word_row) :
  same_scalars (classify_step f r) f.
Proof.
  unfold classify_step, same_scalars.
  destruct (str_eqb (category r) (u "genre")).
  - destruct (negb (mem (subcategory r) (genres f))); simpl; tauto.
  - destruct (str_eqb (category r) (u "theme")).
    + destruct (negb (mem (subcategory r) (themes f))); simpl; tauto.
    + simpl; tauto.
Qed.

Lemma classify_loop_scalars (rows : list word_row) (f : filters) :
  same_scalars (fold_left classify_step rows f) f.
Proof.
  revert f; induction rows as [|r rows IH]; intros f; simpl.
  - apply same_scalars_refl.
  - eapply same_scalars_trans; [apply IH | apply classify_step_scalars].
Qed.

Section SignalFacts.

Variable ext : unicode_ext.
Variable current_year : Z.
Variable db : database.
Variable text : str.

Lemma analyze_request_unfold :
  analyze_request ext current_year db text
  = quality_signal (py_lower ext text)
      (before_signal ext current_year db text).
Proof. reflexivity. Qed.

Lemma before_signal_defaults :
  let f0 := before_signal ext current_year db text in
  mood f0 = None /\ period f0 = None /\ rating_min f0 = None
  /\ sort_by f0 = u "weighted_score" /\ prefer_unknown f0 = false.
Proof.
  intros f0. subst f0.
  unfold before_signal.
  destruct (classify_loop_scalars
              (get_significant_words ext db (py_lower ext text))
              match extract_year ext current_year (py_lower ext text) with
              | Some y => if (y =? 0)%Z then default_filters
                          else set_year default_filters (Some y)
              | None => default_filters
              end) as (Hm & Hp & _ & Hr & Hs & Hu & _).
  rewrite Hm, Hp, Hr, Hs, Hu.
  destruct (extract_year ext current_year (py_lower ext text)) as [y|];
    [destruct (y =? 0)%Z|]; simpl; tauto.
Qed.

Lemma quality_group_test (k : string) (group : list string) :
  dict_get QUALITY_INDICATORS (u k) [] = map u group ->
  forall t, any_in (dict_get QUALITY_INDICATORS (u k) []) t = true
            <-> has_indicator group t.
Proof.
  intros -> t. unfold has_indicator. apply any_in_spec.
Qed.

End SignalFacts.

(** C1.  Quality-signal override.  With "contains" read on the text as
    [analyze_request] holds it (lower-cased, line 234): if the text contains a
    "popular" word then sort_by = 'popularity' (and rating_min stays unset),
    whatever other indicator words it contains; otherwise, if it contains a
    "critically acclaimed" word then sort_by = 'rating' and rating_min = 7.0;
    otherwise, if it contains an "under-the-radar" word then prefer_unknown =
    true, rating_min = 6.5 and sort_by stays 'weighted_score'; otherwise
    sort_by = 'weighted_score' and rating_min is unset. *)
Theorem quality_signal_priority
  (ext : unicode_ext) (current_year : Z) (db : database) (text : str) :
  let t := py_lower ext text in
  let f := analyze_request ext current_year db text in
  let popular :=
    has_indicator ["populaire"; "connu"; "célèbre"; "succès"; "blockbuster"]%string t in
  let acclaimed :=
    has_indicator ["acclamé"; "critique"; "récompense"; "oscar"; "césar"]%string t in
  let unknown :=
    has_indicator ["méconnu"; "rare"; "confidentiel"; "découverte"; "indie"]%string t in
  (popular ->
     sort_by f = u "popularity" /\ rating_min f = None
     /\ prefer_unknown f = false)
  /\ (~ popular -> acclaimed ->
     sort_by f = u "rating" /\ rating_min f = Some 7%float
     /\ prefer_unknown f = false)
  /\ (~ popular -> ~ acclaimed -> unknown ->
     prefer_unknown f = true /\ rating_min f = Some 6.5%float
     /\ sort_by f = u "weighted_score")
  /\ (~ popular -> ~ acclaimed -> ~ unknown ->
     sort_by f = u "weighted_score" /\ rating_min f = None
     /\ prefer_unknown f = false).
Proof.
  intros t f popular acclaimed unknown.
  pose proof (@quality_group_test "populaire" _ eq_refl t) as Hpop.
  pose proof (@quality_group_test "critique" _ eq_refl t) as Hacc.
  pose proof (@quality_group_test "inconnu" _ eq_refl t) as Hunk.
  fold popular in Hpop. fold acclaimed in Hacc. fold unknown in Hunk.
  destruct (before_signal_defaults ext current_year db text)
    as (_ & _ & Hr & Hs & Hu).
  subst f. rewrite analyze_request_unfold. fold t. unfold quality_signal.
  destruct (any_in (dict_get QUALITY_INDICATORS (u "populaire") []) t) eqn:Ep.
  { assert (popular) by now apply Hpop.
    repeat split; try tauto; simpl; assumption. }
  assert (~ popular) by (rewrite <- Hpop; congruence).
  destruct (any_in (dict_get QUALITY_INDICATORS (u "critique") []) t) eqn:Ec.
  { assert (acclaimed) by now apply Hacc.
    repeat split; try tauto; simpl; auto. }
  assert (~ acclaimed) by (rewrite <- Hacc; congruence).
  destruct (any_in (dict_get QUALITY_INDICATORS (u "inconnu") []) t) eqn:Eu.
  { assert (unknown) by now apply Hunk.
    repeat split; try tauto; simpl; auto. }
  assert (~ unknown) by (rewrite <- Hunk; congruence).
  repeat split; try tauto; simpl; auto.
Qed.

Lemma quality_signal_keeps (t : str) (f : filters) :
  mood (quality_signal t f) = mood f
  /\ period (quality_signal t f) = period f
  /\ year (quality_signal t f) = year f
  /\ genres (quality_signal t f) = genres f
  /\ themes (quality_signal t f) = themes f
  /\ keywords (quality_signal t f) = keywords f.
Proof.
  unfold quality_signal.
  repeat match goal with
         | |- context [if ?b then _ else _] => destruct b
         end; simpl; tauto.
Qed.

Lemma or_group_paren (conds : list str) (c : str) :
  In c (or_group conds) -> exists rest, c = 40%N :: rest.
Proof.
  unfold or_group. destruct conds as [|c0 conds]; simpl; [tauto|].
  intros [<- | []]. change (u "(") with [40%N]. simpl. eauto.
Qed.

(** C10.  [analyze_request] never assigns mood or period: both are [None] in
    the filters it returns, for every request text and every state of the
    store.  Hence, on these filters, the planner's year clause is either
    absent or the equality on the extracted year, and neither period clause
    ("release_year >= ?" for 'recent', "release_year <= ?" for 'classique')
    is among the conditions. *)
Theorem analyze_request_leaves_mood_and_period_unset
  (ext : unicode_ext) (current_year : Z) (db : database) (text : str) :
  let f := analyze_request ext current_year db text in
  mood f = None
  /\ period f = None
  /\ (year_clause current_year f = ([], [])
      \/ exists y, year f = Some y
                   /\ year_clause current_year f
                      = ([u "release_year = ?"], [PyInt y]))
  /\ ~ In (u "release_year >= ?") (conditions ext current_year f)
  /\ ~ In (u "release_year <= ?") (conditions ext current_year f).
Proof.
  intros f.
  assert (Hm : mood f = None /\ period f = None).
  { subst f. rewrite analyze_request_unfold.
    destruct (quality_signal_keeps (py_lower ext text)
                (before_signal ext current_year db text)) as (-> & -> & _).
    destruct (before_signal_defaults ext current_year db text) as (? & ? & _).
    tauto. }
  destruct Hm as [Hm Hp].
  assert (Hy : year_clause current_year f = ([], [])
               \/ exists y, year f = Some y
                            /\ year_clause current_year f
                               = ([u "release_year = ?"], [PyInt y])).
  { unfold year_clause, is_period. rewrite Hp.
    destruct (year f) as [y|]; simpl; [|now left].
    destruct (y =? 0)%Z; simpl; [now left | right; now exists y]. }
  repeat split; try assumption.
  all: unfold conditions, clauses; simpl; rewrite app_nil_r, !in_app_iff.
  all: intros [H | [H | [H | H]]].
  all: try (apply or_group_paren in H as [rest H]; vm_compute in H; discriminate).
  all: try (destruct Hy as [Hy | (y & _ & Hy)]; rewrite Hy in H; simpl in H;
            [contradiction | destruct H as [H | []]; vm_compute in H; discriminate]).
  all: unfold rating_clause in H; destruct (truthy_float (rating_min f));
       simpl in H; [destruct H as [H | []]; vm_compute in H; discriminate
                   | contradiction].
Qed.

(** ** The vocabulary store *)

Section StoreFacts.

Lemma filter_none (A : Type) (p : A -> bool) (l : list A) :
  (forall x, In x l -> p x = false) -> filter p l = [].
Proof.
  induction l as [|a l IH]; intros H; simpl; [reflexivity|].
  rewrite (H a) by now left. apply IH. intros x Hx. apply H. now right.
Qed.

Lemma rows_keyed_others (w : str) (t : list word_row) :
  rows_keyed w (filter (fun x => negb (str_eqb (word x) w)) t) = [].
Proof.
  apply filter_none. intros x Hx. apply filter_In in Hx as [_ Hx].
  now apply negb_true_iff in Hx.
Qed.

Lemma rows_keyed_upsert (r : word_row) (t : list word_row) :
  rows_keyed (word r) (upsert_word r t) = [r].
Proof.
  unfold upsert_word, rows_keyed at 1. rewrite filter_app.
  fold (rows_keyed (word r) (filter (fun x => negb (str_eqb (word x) (word r))) t)).
  rewrite rows_keyed_others. simpl. now rewrite str_eqb_refl.
Qed.

Lemma others_idempotent (w : str) (t : list word_row) :
  filter (fun x => negb (str_eqb (word x) w))
         (filter (fun x => negb (str_eqb (word x) w)) t)
  = filter (fun x => negb (str_eqb (word x) w)) t.
Proof.
  induction t as [|a t IH]; simpl; [reflexivity|].
  destruct (negb (str_eqb (word a) w)) eqn:Ha; simpl; [|exact IH].
  now rewrite Ha, IH.
Qed.

(** A later write under the same key replaces the earlier one. *)
Lemma upsert_word_overwrites (r1 r2 : word_row) (t : list word_row) :
  word r1 = word r2 ->
  upsert_word r2 (upsert_word r1 t) = upsert_word r2 t.
Proof.
  intros Hk. unfold upsert_word. rewrite Hk, filter_app, others_idempotent.
  simpl. rewrite Hk, str_eqb_refl. simpl. now rewrite app_nil_r.
Qed.

Lemma upsert_word_others (r r' : word_row) (t : list word_row) :
  word r' <> word r -> (In r' (upsert_word r t) <-> In r' t).
Proof.
  intros Hk. unfold upsert_word. rewrite in_app_iff, filter_In. simpl.
  apply str_eqb_neq in Hk as Hb. rewrite Hb. simpl. split.
  - intros [[H _] | [<- | []]]; [assumption | congruence].
  - intros H. left. now split.
Qed.

Lemma unique_keys_filter (p : word_row -> bool) (t : list word_row) :
  unique_keys t -> unique_keys (filter p t).
Proof.
  unfold unique_keys. induction t as [|a t IH]; simpl; intros H; [constructor|].
  inversion H as [|? ? Hnot Hrest]; subst.
  destruct (p a); simpl; [|now apply IH].
  constructor; [|now apply IH].
  intros Hin. apply Hnot. apply in_map_iff in Hin as (x & Hx & Hin).
  apply filter_In in Hin as [Hin _]. apply in_map_iff. now exists x.
Qed.

Lemma unique_keys_upsert (r : word_row) (t : list word_row) :
  unique_keys t -> unique_keys (upsert_word r t).
Proof.
  intros H. unfold unique_keys, upsert_word. rewrite map_app. simpl.
  apply NoDup_app.
  - now apply unique_keys_filter.
  - repeat constructor. intros [].
  - intros w Hw [<- | []].
    apply in_map_iff in Hw as (x & Hx & Hin).
    apply filter_In in Hin as [_ Hin]. apply negb_true_iff in Hin.
    apply str_eqb_neq in Hin. congruence.
Qed.

Lemma unique_keys_upsert_words (rows t : list word_row) :
  unique_keys t -> unique_keys (upsert_words rows t).
Proof.
  unfold upsert_words. revert t; induction rows as [|r rows IH]; intros t H;
    simpl; [assumption|].
  apply IH. now apply unique_keys_upsert.
Qed.

Lemma unique_keys_seeded : unique_keys (significant_words seeded_db).
Proof.
  apply (@unique_keys_upsert_words words_to_insert []). constructor.
Qed.

Lemma unique_keys_rows_keyed (w : str) (t : list word_row) :
  unique_keys t -> length (rows_keyed w t) <= 1.
Proof.
  unfold unique_keys. induction t as [|a t IH]; simpl; intros H; [lia|].
  inversion H as [|? ? Hnot Hrest]; subst.
  destruct (str_eqb (word a) w) eqn:Ha; [|now apply IH].
  apply str_eqb_eq in Ha. simpl.
  replace (rows_keyed w t) with (@nil word_row); [simpl; lia|].
  symmetry. apply filter_none. intros x Hx.
  apply str_eqb_neq. intros Hk. apply Hnot. apply in_map_iff.
  exists x. split; [congruence | assumption].
Qed.

End StoreFacts.

(** C7.  The administrative "add word" upsert is idempotent.  For every word
    [w], category, subcategory and every state of the store, after the upsert
    exactly one entry is keyed by [w], and it holds the category and
    subcategory just written with weight 1, whatever was stored under [w]
    before; running the same upsert a second time changes nothing; the
    entries of the other words, the stop words and the movies are untouched,
    and a store with one entry per word keeps one entry per word. *)
Theorem add_word_upsert_idempotent (db : database) (w cat sub : str) :
  let db1 := add_word db w cat sub in
  add_word db1 w cat sub = db1
  /\ rows_keyed w (significant_words db1) = [Build_word_row w cat sub 1]
  /\ (forall cat0 sub0,
        add_word (add_word db w cat0 sub0) w cat sub = db1)
  /\ (forall r, word r <> w ->
        (In r (significant_words db1) <-> In r (significant_words db)))
  /\ (unique_keys (significant_words db) -> unique_keys (significant_words db1))
  /\ stop_words db1 = stop_words db
  /\ movies db1 = movies db.
Proof.
  intros db1.
  assert (Hover : forall cat0 sub0,
             add_word (add_word db w cat0 sub0) w cat sub = db1).
  { intros cat0 sub0. unfold db1, add_word. simpl. f_equal.
    now apply upsert_word_overwrites. }
  split; [apply (Hover cat sub)|].
  split; [apply (rows_keyed_upsert (Build_word_row w cat sub 1))|].
  split; [exact Hover|].
  split; [intros r Hr; now apply upsert_word_others|].
  split; [apply unique_keys_upsert|].
  split; reflexivity.
Qed.

(** ** The order of the keys *)

Lemma title_leb_total (a b : str) :
  title_leb a b = false -> title_leb b a = true.
Proof.
  revert b; induction a as [|x a IH]; intros [|y b]; simpl; try congruence.
  destruct (N.ltb_spec x y); [discriminate|].
  destruct (N.ltb_spec y x); [reflexivity|]. apply IH.
Qed.

Lemma title_leb_trans (a b c : str) :
  title_leb a b = true -> title_leb b c = true -> title_leb a c = true.
Proof.
  revert b c; induction a as [|x a IH]; intros [|y b] [|z c]; simpl;
    try congruence.
  destruct (N.ltb_spec x y), (N.ltb_spec y x), (N.ltb_spec y z),
    (N.ltb_spec z y), (N.ltb_spec x z), (N.ltb_spec z x);
    try congruence; try lia.
  apply IH.
Qed.

Lemma title_leb_refl (a : str) : title_leb a a = true.
Proof.
  destruct (title_leb a a) eqn:E; [reflexivity|].
  pose proof (title_leb_total _ _ E) as H. congruence.
Qed.

Lemma insert_by_word_perm (r : word_row) (l : list word_row) :
  Permutation (r :: l) (insert_by_word r l).
Proof.
  induction l as [|h t IH]; simpl; [reflexivity|].
  destruct (title_leb (word r) (word h)); [reflexivity|].
  rewrite perm_swap. now constructor.
Qed.

Lemma order_by_word_perm (l : list word_row) :
  Permutation l (order_by_word l).
Proof.
  induction l as [|r l IH]; simpl; [constructor|].
  rewrite <- insert_by_word_perm. now constructor.
Qed.

Lemma order_by_word_In (l : list word_row) (r : word_row) :
  In r (order_by_word l) <-> In r l.
Proof.
  split; apply Permutation_in;
    [apply Permutation_sym|]; apply order_by_word_perm.
Qed.

Lemma insert_by_word_sorted (r : word_row) (l : list word_row) :
  by_word l -> by_word (insert_by_word r l).
Proof.
  unfold by_word. induction l as [|h t IH]; intros Hs; simpl.
  - repeat constructor.
  - inversion Hs as [|? ? Ht Hh]; subst.
    destruct (title_leb (word r) (word h)) eqn:E.
    + constructor; [assumption|]. constructor; [assumption|].
      rewrite Forall_forall in *. intros x Hx.
      eapply title_leb_trans; [exact E | now apply Hh].
    + constructor; [now apply IH|].
      rewrite Forall_forall in *. intros x Hx.
      apply (Permutation_in _ (Permutation_sym (insert_by_word_perm r t))) in Hx.
      destruct Hx as [<- | Hx]; [now apply title_leb_total | now apply Hh].
Qed.

Lemma order_by_word_sorted (l : list word_row) : by_word (order_by_word l).
Proof.
  induction l as [|r l IH]; simpl; [constructor|].
  now apply insert_by_word_sorted.
Qed.

(** A row whose key is not above any key of the list is put in front. *)
Lemma insert_by_word_first (r : word_row) (l : list word_row) :
  Forall (fun x => title_leb (word r) (word x) = true) l ->
  insert_by_word r l = r :: l.
Proof.
  intros H. destruct l as [|h t]; [reflexivity|].
  inversion H as [|? ? Hh _]; subst. simpl. now rewrite Hh.
Qed.

(** Selecting rows and putting them in key order commute. *)
Lemma filter_insert_by_word (p : word_row -> bool) (r : word_row)
    (l : list word_row) :
  by_word l ->
  filter p (insert_by_word r l)
  = if p r then insert_by_word r (filter p l) else filter p l.
Proof.
  unfold by_word. induction l as [|h t IH]; intros Hs.
  - simpl. now destruct (p r).
  - inversion Hs as [|? ? Ht Hh]; subst. cbn [insert_by_word].
    destruct (title_leb (word r) (word h)) eqn:E.
    + cbn [filter]. destruct (p r) eqn:Er; [|reflexivity].
      symmetry. apply insert_by_word_first.
      assert (Hall : Forall (fun x => title_leb (word r) (word x) = true)
                            (h :: t)).
      { constructor; [exact E|]. rewrite Forall_forall in *. intros x Hx.
        eapply title_leb_trans; [exact E | now apply Hh]. }
      rewrite Forall_forall in *. intros x Hx. apply Hall.
      change (In x (filter p (h :: t))) in Hx. now apply filter_In in Hx.
    + cbn [filter]. rewrite (IH Ht).
      destruct (p h) eqn:Eh; destruct (p r) eqn:Er; try reflexivity.
      cbn [insert_by_word]. now rewrite E.
Qed.

Lemma filter_order_by_word (p : word_row -> bool) (l : list word_row) :
  filter p (order_by_word l) = order_by_word (filter p l).
Proof.
  induction l as [|r l IH]; [reflexivity|].
  cbn [order_by_word fold_right]. fold (order_by_word l).
  rewrite filter_insert_by_word by apply order_by_word_sorted.
  rewrite IH. cbn [filter]. now destruct (p r).
Qed.

(** Rows of one key stay as they are. *)
Lemma order_by_word_same_key (w : str) (l : list word_row) :
  Forall (fun r => word r = w) l -> order_by_word l = l.
Proof.
  induction l as [|r l IH]; intros H; [reflexivity|].
  inversion H as [|? ? Hr Hl]; subst.
  cbn [order_by_word fold_right]. fold (order_by_word l). rewrite (IH Hl).
  apply insert_by_word_first.
  rewrite Forall_forall in *. intros x Hx. rewrite (Hl x Hx).
  apply title_leb_refl.
Qed.

Lemma rows_keyed_order_by_word (w : str) (l : list word_row) :
  rows_keyed w (order_by_word l) = rows_keyed w l.
Proof.
  unfold rows_keyed. rewrite filter_order_by_word.
  apply (@order_by_word_same_key w). rewrite Forall_forall.
  intros x Hx. apply filter_In in Hx as [_ Hx]. now apply str_eqb_eq.
Qed.

Lemma unique_keys_order_by_word (l : list word_row) :
  unique_keys l -> unique_keys (order_by_word l).
Proof.
  unfold unique_keys.
  apply Permutation_NoDup, Permutation_map, order_by_word_perm.
Qed.

(** ** The vocabulary classifier and the classification loop *)

Section ClassifierFacts.

Variable ext : unicode_ext.

Lemma select_words_in_nil (t : list word_row) : select_words_in t [] = [].
Proof.
  unfold select_words_in. now rewrite filter_none.
Qed.

(** Within the limit on bound parameters the statement runs. *)
Lemma get_significant_words_select (db : database) (t : str) :
  (Z.of_nat (length (filtered_words ext db t)) <= max_variables db)%Z ->
  get_significant_words ext db t
  = select_words_in (significant_words db) (filtered_words ext db t).
Proof.
  unfold get_significant_words. intros H.
  destruct (filtered_words ext db t) as [|w ws] eqn:E.
  - now rewrite select_words_in_nil.
  - apply Z.ltb_ge in H. now rewrite H.
Qed.

(** Beyond it, the error is caught and nothing is returned. *)
Lemma get_significant_words_too_many (db : database) (t : str) :
  (max_variables db < Z.of_nat (length (filtered_words ext db t)))%Z ->
  get_significant_words ext db t = [].
Proof.
  unfold get_significant_words. intros H.
  destruct (filtered_words ext db t) as [|w ws] eqn:E; [reflexivity|].
  apply Z.ltb_lt in H. now rewrite H.
Qed.

(** In both cases the rows are rows of the statement. *)
Lemma get_significant_words_cases (db : database) (t : str) :
  get_significant_words ext db t
  = select_words_in (significant_words db) (filtered_words ext db t)
  \/ get_significant_words ext db t = [].
Proof.
  destruct (Z_le_gt_dec (Z.of_nat (length (filtered_words ext db t)))
                        (max_variables db)) as [H | H].
  - left. now apply get_significant_words_select.
  - right. apply get_significant_words_too_many. lia.
Qed.

Lemma rows_keyed_filter_mem (w : str) (t : list word_row) (ws : list str) :
  rows_keyed w (filter (fun r => mem (word r) ws) t)
  = if mem w ws then rows_keyed w t else [].
Proof.
  unfold rows_keyed.
  induction t as [|a t IH]; simpl; [now destruct (mem w ws)|].
  destruct (str_eqb (word a) w) eqn:Ha.
  - assert (Hm : mem (word a) ws = mem w ws)
      by (apply str_eqb_eq in Ha; now rewrite Ha).
    rewrite Hm. destruct (mem w ws) eqn:Hw; simpl.
    + rewrite Ha. now f_equal.
    + exact IH.
  - destruct (mem (word a) ws); simpl; [rewrite Ha|]; exact IH.
Qed.

Lemma rows_keyed_select (w : str) (t : list word_row) (ws : list str) :
  rows_keyed w (select_words_in t ws)
  = if mem w ws then rows_keyed w t else [].
Proof.
  unfold select_words_in.
  now rewrite rows_keyed_order_by_word, rows_keyed_filter_mem.
Qed.

Lemma select_words_in_In (t : list word_row) (ws : list str) (r : word_row) :
  In r (select_words_in t ws) <-> In r t /\ In (word r) ws.
Proof.
  unfold select_words_in. now rewrite order_by_word_In, filter_In, mem_In.
Qed.

Lemma select_words_in_sorted (t : list word_row) (ws : list str) :
  by_word (select_words_in t ws).
Proof. apply order_by_word_sorted. Qed.

Lemma unique_keys_select (t : list word_row) (ws : list str) :
  unique_keys t -> unique_keys (select_words_in t ws).
Proof.
  intros H. unfold select_words_in.
  apply unique_keys_order_by_word. now apply unique_keys_filter.
Qed.

Lemma first_seen_In (xs seen : list str) (x : str) :
  In x (first_seen seen xs) <-> In x xs /\ ~ In x seen.
Proof.
  revert seen; induction xs as [|a xs IH]; intros seen; simpl; [tauto|].
  destruct (mem a seen) eqn:Ha.
  - apply mem_In in Ha. rewrite IH. split.
    + tauto.
    + intros [[<- | H] Hn]; [contradiction | tauto].
  - apply mem_not_In in Ha. simpl. rewrite IH, in_app_iff. simpl. split.
    + intros [<- | [H Hn]]; tauto.
    + intros [[<- | H] Hn]; [now left|].
      destruct (list_eq_dec N.eq_dec a x) as [-> | Hne]; [now left | right].
      split; [assumption | intros [H' | [H' | []]]; contradiction].
Qed.

Lemma first_seen_NoDup (xs seen : list str) : NoDup (first_seen seen xs).
Proof.
  revert seen; induction xs as [|a xs IH]; intros seen; simpl; [constructor|].
  destruct (mem a seen); [apply IH|].
  constructor; [|apply IH].
  rewrite first_seen_In, in_app_iff. simpl. tauto.
Qed.

Lemma genre_is_not_theme (c : str) :
  str_eqb c (u "genre") = true -> str_eqb c (u "theme") = false.
Proof. intros H. apply str_eqb_eq in H. now subst c. Qed.

(** The loop of [analyze_request] over the classified rows, against its
    functional reading. *)
Lemma classify_loop_spec (rows : list word_row) (f : filters) :
  let f' := fold_left classify_step rows f in
  keywords f' = keywords f ++ map word rows
  /\ genres f' = genres f ++ first_seen (genres f) (subcategories_of "genre" rows)
  /\ themes f' = themes f ++ first_seen (themes f) (subcategories_of "theme" rows).
Proof.
  revert f; induction rows as [|r rows IH]; intros f; simpl.
  - now rewrite !app_nil_r.
  - destruct (IH (classify_step f r)) as (Hk & Hg & Ht).
    rewrite Hk, Hg, Ht. clear IH Hk Hg Ht.
    unfold classify_step, subcategories_of. simpl.
    destruct (str_eqb (category r) (u "genre")) eqn:Eg.
    + rewrite (genre_is_not_theme _ Eg).
      destruct (mem (subcategory r) (genres f)) eqn:Em; simpl;
        rewrite ?Em, <- ?app_assoc; auto.
    + destruct (str_eqb (category r) (u "theme")) eqn:Et.
      * destruct (mem (subcategory r) (themes f)) eqn:Em; simpl;
          rewrite ?Em, <- ?app_assoc; auto.
      * simpl. rewrite <- app_assoc. auto.
Qed.

Lemma subcategories_of_In (cat : string) (rows : list word_row) (s : str) :
  In s (subcategories_of cat rows) <->
  exists r, In r rows /\ category r = u cat /\ subcategory r = s.
Proof.
  unfold subcategories_of. rewrite in_map_iff. split.
  - intros (r & <- & Hr). apply filter_In in Hr as [Hr Hc].
    apply str_eqb_eq in Hc. now exists r.
  - intros (r & Hr & Hc & <-). exists r. split; [reflexivity|].
    apply filter_In. split; [assumption | now apply str_eqb_eq].
Qed.

End ClassifierFacts.

(** C5 (amended).  The vocabulary classifier returns the entries of the store
    whose word equals a significant token, each entry once however often its
    token occurs in the request, and in the order of their words, not in the
    order of the tokens.  As long as the request has no more significant
    tokens than the engine binds to one statement, the rows returned are
    exactly those entries: the number of rows returned for a word is the
    number of entries the store holds for it (at most one, the word being the
    primary key) when the word is a significant token, and zero otherwise.
    With more tokens than that the lookup fails and no row is returned.  In
    both cases every returned row is an entry of the store whose word is a
    significant token.  The filter extractor appends the word of every
    returned row to keywords, unconditionally, and appends each subcategory to
    genres or themes (by category) at most once, in the order in which the
    returned rows first show it. *)
Theorem classifier_returns_each_entry_once
  (ext : unicode_ext) (current_year : Z) (db : database) (text : str) :
  let t := py_lower ext text in
  let tokens := filtered_words ext db t in
  let rows := get_significant_words ext db t in
  let f := analyze_request ext current_year db text in
  ((Z.of_nat (length tokens) <= max_variables db)%Z ->
     (forall r, In r rows <-> In r (significant_words db) /\ In (word r) tokens)
     /\ (forall w, rows_keyed w rows
                   = if mem w tokens then rows_keyed w (significant_words db)
                     else []))
  /\ ((max_variables db < Z.of_nat (length tokens))%Z -> rows = [])
  /\ (forall r, In r rows -> In r (significant_words db) /\ In (word r) tokens)
  /\ by_word rows
  /\ (unique_keys (significant_words db) ->
        unique_keys rows /\ forall w, length (rows_keyed w rows) <= 1)
  /\ keywords f = map word rows
  /\ genres f = first_seen [] (subcategories_of "genre" rows)
  /\ themes f = first_seen [] (subcategories_of "theme" rows)
  /\ NoDup (genres f) /\ NoDup (themes f)
  /\ (forall g, In g (genres f) <->
        exists r, In r rows /\ category r = u "genre" /\ subcategory r = g)
  /\ (forall th, In th (themes f) <->
        exists r, In r rows /\ category r = u "theme" /\ subcategory r = th).
Proof.
  intros t tokens rows f.
  assert (Hrows : rows = select_words_in (significant_words db) tokens
                  \/ rows = [])
    by apply get_significant_words_cases.
  assert (Hf : keywords f = map word rows
               /\ genres f = first_seen [] (subcategories_of "genre" rows)
               /\ themes f = first_seen [] (subcategories_of "theme" rows)).
  { subst f. rewrite analyze_request_unfold.
    destruct (quality_signal_keeps (py_lower ext text)
                (before_signal ext current_year db text))
      as (_ & _ & _ & -> & -> & ->).
    unfold before_signal. fold t. fold rows.
    match goal with
    | |- context [fold_left classify_step rows ?f0] =>
      destruct (classify_loop_spec rows f0) as (Hk & Hg & Ht);
      assert (H0 : keywords f0 = [] /\ genres f0 = [] /\ themes f0 = [])
    end.
    { destruct (extract_year ext current_year t) as [y|];
        [destruct (y =? 0)%Z|]; simpl; tauto. }
    destruct H0 as (H1 & H2 & H3).
    rewrite Hk, Hg, Ht, H1, H2, H3. simpl. tauto. }
  destruct Hf as (Hk & Hg & Ht).
  split.
  { intros Hn.
    assert (Hs : rows = select_words_in (significant_words db) tokens)
      by now apply get_significant_words_select.
    split; intros x; rewrite Hs;
      [apply select_words_in_In | apply rows_keyed_select]. }
  split; [apply get_significant_words_too_many|].
  split.
  { intros r Hr. destruct Hrows as [Hs | Hs]; rewrite Hs in Hr.
    - now apply select_words_in_In.
    - destruct Hr. }
  split.
  { destruct Hrows as [-> | ->];
      [apply select_words_in_sorted | constructor]. }
  split.
  { intros Hu.
    assert (Hu' : unique_keys rows).
    { destruct Hrows as [-> | ->];
        [now apply unique_keys_select | constructor]. }
    split; [assumption | intros w; now apply unique_keys_rows_keyed]. }
  split; [assumption|].
  split; [assumption|].
  split; [assumption|].
  split; [rewrite Hg; apply first_seen_NoDup|].
  split; [rewrite Ht; apply first_seen_NoDup|].
  split.
  - intros g. rewrite Hg, first_seen_In, subcategories_of_In. simpl. tauto.
  - intros th. rewrite Ht, first_seen_In, subcategories_of_In. simpl. tauto.
Qed.

(** ** The theme clause *)

Lemma dict_get_lookup (V : Type) (d : dict V) (k : str) (default : V) :
  dict_get d k default
  = match lookup d k with Some v => v | None => default end.
Proof.
  induction d as [|[k' v] d IH]; simpl; [reflexivity|].
  now destruct (str_eqb k k').
Qed.

Lemma theme_words_In (f : filters) (w : str) :
  In w (theme_words f) <->
  exists theme ws,
    In theme (themes f) /\ lookup THEME_MAPPING theme = Some ws /\ In w ws.
Proof.
  unfold theme_words. rewrite in_flat_map.
  generalize THEME_MAPPING as table. intros table. split.
  - intros (theme & Ht & Hw). rewrite dict_get_lookup in Hw.
    destruct (lookup table theme) as [ws|] eqn:E; [|destruct Hw].
    exists theme, ws. split; [exact Ht | split; [exact E | exact Hw]].
  - intros (theme & ws & Ht & E & Hw). exists theme.
    split; [exact Ht|]. rewrite dict_get_lookup, E. exact Hw.
Qed.

(** C6 (amended).  Theme clause construction.  The words tested for the
    requested themes are those of the fixed table [THEME_MAPPING] of the
    program, not those of the vocabulary store: a word is tested exactly when
    it is listed in that table under a requested theme.  When there is such a
    word, the predicate contains one OR-group with, for each of them, the
    condition (LOWER(overview) LIKE ? OR LOWER(title) LIKE ?) bound twice to
    the lower-cased word between percent signs; when there is none (also with
    themes requested), no theme condition and no theme parameter is
    generated. *)
Theorem theme_clause_reads_the_fixed_table
  (ext : unicode_ext) (current_year : Z) (f : filters) :
  (forall w, In w (theme_words f) <->
     exists theme ws,
       In theme (themes f) /\ lookup THEME_MAPPING theme = Some ws /\ In w ws)
  /\ snd (theme_clause ext f)
     = flat_map (fun w => [PyStr (u "%" ++ py_lower ext w ++ u "%");
                           PyStr (u "%" ++ py_lower ext w ++ u "%")])
                (theme_words f)
  /\ (theme_words f <> [] ->
        fst (theme_clause ext f)
        = [u "(" ++ join (u " OR ") (map (fun _ => theme_condition) (theme_words f))
             ++ u ")"]
        /\ incl (fst (theme_clause ext f)) (conditions ext current_year f)
        /\ forall w, In w (theme_words f) ->
             In (like_param ext w) (params ext current_year f))
  /\ (theme_words f = [] -> theme_clause ext f = ([], [])).
Proof.
  split; [intros w; apply theme_words_In|].
  split; [reflexivity|].
  split.
  - intros Hne. split.
    + unfold theme_clause. cbn [fst]. revert Hne.
      generalize (theme_words f) as ws. intros [|w ws] Hne.
      * exfalso. apply Hne. reflexivity.
      * unfold or_group. cbn [map]. reflexivity.
    + split.
      * intros c Hc. unfold conditions, clauses. cbn [flat_map].
        rewrite !in_app_iff. right; left. exact Hc.
      * intros w Hw. unfold params, clauses. cbn [flat_map].
        rewrite !in_app_iff. right; left. unfold theme_clause. cbn [snd].
        apply in_flat_map. exists w. split; [exact Hw | left; reflexivity].
  - intros He. unfold theme_clause. rewrite He. reflexivity.
Qed.

(** ** The formatter *)

(** A [sqlite3.Row] has no [get]: formatting it always ends in the handler. *)
Lemma format_sqlite_row (cols : dict pyval) :
  format_movie_result (SqliteRow cols) = None.
Proof.
  unfold format_movie_result, bind. simpl.
  repeat match goal with
         | |- match ?x with Some _ => _ | None => None end = None =>
           destruct x; [|reflexivity]
         | |- _ => reflexivity
         end.
Qed.

Lemma format_batch_rows (rs : list ranked) :
  format_batch (map to_row rs) = repeat None (length rs).
Proof.
  unfold format_batch. induction rs as [|r rs IH]; [reflexivity|].
  cbn [map length repeat]. now rewrite IH.
Qed.

(** C8 (defect of the code).  Formatting of the rows of the catalogue.  The
    rows that the query hands to the formatter are [sqlite3.Row] objects.
    Such a row holds every column the formatter reads, yet the formatter
    reads popularity and weighted_score with [get], which a row does not
    have: the exception is caught and the whole record is replaced by [None],
    for every row of every batch.  The batch keeps one entry per row, all of
    them [None], and [generate_response] raises on the first of them: no
    field is kept, and the response is not produced.  So it is for the row of
    the movie Heat, alone in its batch. *)
Theorem catalog_rows_are_formatted_to_none
  (rt : python_ext) (r : ranked) (rs : list ranked) (f : filters) :
  let batch := format_batch (map to_row (r :: rs)) in
  (forall k, In k required_keys -> getitem (to_row r) k <> None)
  /\ get_method (to_row r) "popularity" (PyInt 0) = None
  /\ format_movie_result (to_row r) = None
  /\ batch = repeat None (length (r :: rs))
  /\ generate_response rt batch f = None
  /\ format_movie_result heat_row = None
  /\ format_batch [heat_row] = [None]
  /\ generate_response rt (format_batch [heat_row]) f = None.
Proof.
  intros batch.
  split.
  { intros k Hk. unfold required_keys in Hk. simpl in Hk.
    repeat (destruct Hk as [<- | Hk]; [cbv; discriminate|]). destruct Hk. }
  split; [reflexivity|].
  split; [apply format_sqlite_row|].
  assert (Hb : batch = repeat None (length (r :: rs)))
    by apply format_batch_rows.
  split; [exact Hb|].
  split; [rewrite Hb; reflexivity|].
  split; [apply format_sqlite_row|].
  split; reflexivity.
Qed.

(** C9.  Description truncation.  For a formatted record whose description is
    a string, the description displayed has at most 200 characters: when the
    overview has more than 200 characters it is its first 197 characters
    followed by the three characters "...", 200 characters in all, and
    otherwise it is the overview unchanged; so a 250-character overview is
    shown as its first 197 characters plus "...".  (A description that is not
    a string is not displayed: taking its length raises.) *)
Theorem description_is_truncated_to_200 (r : formatted) :
  match description r with
  | PyStr s =>
    exists d,
      display_description (description r) = Some d
      /\ length d <= 200
      /\ (200 < length s ->
            d = firstn 197 s ++ u "..." /\ length (firstn 197 s) = 197
            /\ length d = 200)
      /\ (length s <= 200 -> d = s)
      /\ (length s = 250 -> d = firstn 197 s ++ [46; 46; 46]%N /\ length d = 200)
  | _ => display_description (description r) = None
  end.
Proof.
  destruct (description r) as [| | |s]; try reflexivity.
  unfold display_description.
  assert (Hlong : 200 < length s ->
            length (firstn 197 s) = 197
            /\ length (firstn 197 s ++ u "...") = 200).
  { intros H. rewrite length_app, length_firstn.
    change (length (u "...")) with 3. lia. }
  destruct (Nat.ltb_spec 200 (length s)) as [Hlt | Hle].
  - destruct (Hlong Hlt) as [H1 H2].
    exists (firstn 197 s ++ u "..."). repeat split; try assumption; try lia.
  - exists s. repeat split; try assumption; try lia.
Qed.

(** ** The claims that the code does not meet, at concrete inputs *)

(** C5 as stated fails.  Were every occurrence of a token to contribute a
    match, the entry of a word would be returned as often as the word occurs
    among the significant tokens.  On the seeded store and the request
    "action action" the token "action" occurs twice and its entry is returned
    once. *)
Lemma repeated_token_is_matched_once :
  ~ (forall (db : database) (text : str) (r : word_row),
       unique_keys (significant_words db) ->
       In r (significant_words db) ->
       length (rows_keyed (word r) (get_significant_words latin1_only db text))
       = length (filter (str_eqb (word r)) (filtered_words latin1_only db text))).
Proof.
  intros H.
  pose (r := Build_word_row (u "action") (u "genre") (u "action") 2).
  assert (E : rows_keyed (u "action") (significant_words seeded_db) = [r])
    by (vm_compute; reflexivity).
  assert (Hin : In r (significant_words seeded_db)).
  { assert (Hr : In r (rows_keyed (u "action") (significant_words seeded_db)))
      by (rewrite E; left; reflexivity).
    apply filter_In in Hr. exact (proj1 Hr). }
  specialize (H seeded_db (u "action action") r unique_keys_seeded Hin).
  vm_compute in H. discriminate H.
Qed.

(** C6 as stated fails.  After [add word bolide theme voiture] the store
    lists "bolide" under the theme voiture, and the request "un film avec un
    bolide" asks for that theme; the parameters of the predicate do not hold
    the pattern of "bolide". *)
Lemma theme_clause_ignores_added_words :
  ~ (forall (db : database) (f : filters) (r : word_row),
       themes f <> [] ->
       In r (significant_words db) ->
       category r = u "theme" ->
       In (subcategory r) (themes f) ->
       In (like_param latin1_only (word r)) (params latin1_only 2026 f)).
Proof.
  intros H.
  pose (r := Build_word_row (u "bolide") (u "theme") (u "voiture") 1).
  pose (f := analyze_request latin1_only 2026 db_with_bolide
               (u "un film avec un bolide")).
  assert (Hf : themes f = [u "voiture"]) by (vm_compute; reflexivity).
  assert (Hin : In r (significant_words db_with_bolide)).
  { unfold db_with_bolide, add_word, upsert_word. cbn [significant_words].
    apply in_or_app. right. left. reflexivity. }
  specialize (H db_with_bolide f r).
  rewrite Hf in H.
  assert (Hp : In (like_param latin1_only (word r)) (params latin1_only 2026 f)).
  { apply H.
    - discriminate.
    - exact Hin.
    - reflexivity.
    - left. reflexivity. }
  vm_compute in Hp.
  repeat (destruct Hp as [Hp | Hp]; [discriminate Hp|]).
  exact Hp.
Qed.

(** ** The pipeline on the requests of the specification *)

(** A request with the genre word "action" and no other signal. *)
Example action_request :
  let f := analyze_request latin1_only 2026 seeded_db (u "un film d'action") in
  genres f = [u "action"] /\ themes f = [] /\ year f = None
  /\ sort_by f = u "weighted_score" /\ rating_min f = None.
Proof. vm_compute. repeat split. Qed.

(** A "popular" and a "critically acclaimed" word together: popularity. *)
Example popular_beats_acclaimed :
  let f := analyze_request latin1_only 2026 seeded_db
             (u "Un film ACCLAMÉ par la critique et très populaire") in
  sort_by f = u "popularity" /\ rating_min f = None.
Proof. vm_compute. repeat split. Qed.

(** Tokens of a request: short words, stop words and numbers are dropped. *)
Example normalizer_on_a_request :
  extract_significant_words latin1_only
    (u "Un FILM d'Action, de 1999, méconnu : a_b 12 où ?")
  = [u "action"; u "méconnu"; u "a_b"].
Proof. vm_compute. reflexivity. Qed.

(** The first pattern whose year is in range wins, not the first year. *)
Example year_of_the_first_pattern_in_range :
  extract_year latin1_only 2026 (u "un film de 1800 sorti en 1950") = Some 1950%Z
  /\ extract_year latin1_only 2026 (u "les films de 1999 ou 2001") = Some 1999%Z
  /\ extract_year latin1_only 2026 (u "de 1800 de 1950") = None.
Proof. vm_compute. repeat split. Qed.

(** The classifier answers in the order of the words, not of the tokens. *)
Example classifier_rows_in_key_order :
  map word (get_significant_words latin1_only seeded_db (u "guerre action"))
  = [u "action"; u "guerre"].
Proof. vm_compute. reflexivity. Qed.

(** With the limit of 999 parameters of the older engines, 999 tokens are
    looked up and 1000 are not. *)
Example lookup_of_a_thousand_tokens :
  let db := {| significant_words := significant_words seeded_db;
               stop_words := stop_words seeded_db;
               movies := [];
               max_variables := 999 |} in
  map word (get_significant_words latin1_only db
              (concat (repeat (u "action ") 999)))
  = [u "action"]
  /\ get_significant_words latin1_only db (concat (repeat (u "action ") 1000))
     = [].
Proof. vm_compute. split; reflexivity. Qed.

(** A 250-character overview is shown as 197 characters and "...". *)
Example truncation_of_250_characters :
  display_description (PyStr (repeat 120%N 250))
  = Some (repeat 120%N 197 ++ u "...").
Proof. vm_compute. reflexivity. Qed.

(** The rows of the query are [sqlite3.Row] objects, so each of them is
    formatted to [None]. *)
Lemma search_results_are_none
  (ext : unicode_ext) (sqlite_where : str -> list pyval -> movie_row -> bool)
  (current_year : Z) (db : database) (f : filters) :
  Forall (fun r => r = None)
         (search_movies_optimized ext sqlite_where current_year db f).
Proof.
  unfold search_movies_optimized.
  destruct (run_query ext sqlite_where current_year db f) as [|m ms];
    [constructor|].
  unfold format_batch. rewrite Forall_forall. intros r Hr.
  apply in_map_iff in Hr as (x & <- & Hx).
  apply in_map_iff in Hx as (y & <- & _).
  apply format_sqlite_row.
Qed.

(** ** Stop words *)

Lemma upsert_stop_In (w x : str) (t : list str) :
  In x (upsert_stop w t) <-> x = w \/ In x t.
Proof.
  unfold upsert_stop. rewrite in_app_iff, filter_In, negb_true_iff, str_eqb_neq.
  simpl. destruct (list_eq_dec N.eq_dec x w) as [-> | Hne].
  - split; [now left | intros _; right; now left].
  - split.
    + intros [[H _] | [H | []]]; [now right | now left].
    + intros [H | H]; [contradiction | left; now split].
Qed.

Lemma upsert_stops_In (ws t : list str) (x : str) :
  In x (fold_left (fun acc w => upsert_stop w acc) ws t) <-> In x ws \/ In x t.
Proof.
  revert t; induction ws as [|w ws IH]; intros t; simpl; [tauto|].
  rewrite IH, upsert_stop_In. intuition congruence.
Qed.

Lemma mem_ext (l1 l2 : list str) (w : str) :
  (forall x, In x l1 <-> In x l2) -> mem w l1 = mem w l2.
Proof.
  intros H. destruct (mem w l2) eqn:E.
  - apply mem_In. apply H. now apply mem_In.
  - apply mem_not_In. rewrite H. now apply mem_not_In.
Qed.

Lemma mem_filter_others (w x : str) (l : list str) :
  mem x (filter (fun y => negb (str_eqb y w)) l)
  = mem x l && negb (str_eqb x w).
Proof.
  destruct (mem x l && negb (str_eqb x w)) eqn:E.
  - apply andb_true_iff in E as [Hm Hn]. apply mem_In, filter_In.
    split; [now apply mem_In | exact Hn].
  - apply mem_not_In. intros Hin. apply filter_In in Hin as [Hin Hn].
    apply mem_In in Hin. rewrite Hin, Hn in E. discriminate.
Qed.

Lemma filter_filter_and (A : Type) (p q : A -> bool) (l : list A) :
  filter q (filter p l) = filter (fun x => p x && q x) l.
Proof.
  induction l as [|a l IH]; simpl; [reflexivity|].
  destruct (p a); simpl; [destruct (q a)|]; now rewrite IH.
Qed.

Lemma initialize_db_tables (tmdb : list movie_row) (db : database) :
  significant_words (initialize_db tmdb db)
  = match significant_words db with
    | [] => upsert_words words_to_insert []
    | _ => significant_words db
    end
  /\ stop_words (initialize_db tmdb db)
     = match stop_words db with
       | [] => fold_left (fun acc w => upsert_stop w acc) STOP_WORDS []
       | _ => stop_words db
       end
  /\ movies (initialize_db tmdb db)
     = match movies db with
       | [] => tmdb
       | _ => movies db
       end
  /\ max_variables (initialize_db tmdb db) = max_variables db.
Proof.
  destruct db as [sw st mv mx]. unfold initialize_db.
  cbn [significant_words stop_words movies initialize_significant_words].
  destruct sw as [|r sw], st as [|x st], mv as [|m mv];
    cbn [significant_words stop_words movies max_variables
         initialize_stop_words initialize_significant_words
         import_movies_from_tmdb app];
    repeat split.
Qed.

(** X1.  At bootstrap the two normalisers agree: once [initialize_db] has
    seeded an empty stop-word table, the tokens that [get_significant_words]
    looks up are those that [extract_significant_words] returns, for every
    text, whatever the import of the movies brought. *)
Theorem seeded_stop_words_are_the_builtin_ones
  (ext : unicode_ext) (tmdb : list movie_row) (db : database) (text : str)
  (Hempty : stop_words db = []) :
  (forall w, In w (stop_words (initialize_db tmdb db)) <-> In w STOP_WORDS)
  /\ filtered_words ext (initialize_db tmdb db) text
     = extract_significant_words ext text.
Proof.
  assert (Hs : forall w, In w (stop_words (initialize_db tmdb db))
                         <-> In w STOP_WORDS).
  { intros w. destruct (initialize_db_tables tmdb db) as (_ & -> & _).
    rewrite Hempty, upsert_stops_In.
    split; [intros [H | []]; exact H | intros H; left; exact H]. }
  split; [exact Hs|].
  rewrite extract_significant_words_filter. unfold filtered_words.
  apply filter_ext. intros w. unfold significant.
  now rewrite (mem_ext _ _ w Hs).
Qed.

Lemma seeded_stop_words_witness :
  filtered_words latin1_only (initialize_db [] empty_db) (u "un film de guerre")
  = extract_significant_words latin1_only (u "un film de guerre").
Proof.
  exact (proj2 (@seeded_stop_words_are_the_builtin_ones
                  latin1_only [] empty_db (u "un film de guerre") eq_refl)).
Defined.

(** X2.  [add stop w] removes [w] from every later lookup and touches nothing
    else: the tokens looked up are the former ones without [w]; no entry keyed
    by [w] is returned any more, whatever the store holds for it, and every
    entry returned is an entry of the vocabulary for one of the former tokens;
    when the lookup ran before (the former tokens were not more than the
    engine binds), the entries returned are the former ones without the entry
    of [w]. *)
Theorem add_stop_suppresses_the_word
  (ext : unicode_ext) (db : database) (w text : str) :
  let db' := add_stop db w in
  filtered_words ext db' text
  = filter (fun x => negb (str_eqb x w)) (filtered_words ext db text)
  /\ ((Z.of_nat (length (filtered_words ext db text)) <= max_variables db)%Z ->
        get_significant_words ext db' text
        = filter (fun r => negb (str_eqb (word r) w))
                 (get_significant_words ext db text))
  /\ (forall r, In r (get_significant_words ext db' text) ->
        In r (significant_words db)
        /\ In (word r) (filtered_words ext db text) /\ word r <> w)
  /\ rows_keyed w (get_significant_words ext db' text) = []
  /\ significant_words db' = significant_words db
  /\ max_variables db' = max_variables db.
Proof.
  intros db'.
  assert (Hf : filtered_words ext db' text
               = filter (fun x => negb (str_eqb x w)) (filtered_words ext db text)).
  { unfold filtered_words. rewrite filter_filter_and. apply filter_ext.
    intros x. unfold significant, db', add_stop. cbn [stop_words].
    rewrite (mem_ext _ (w :: stop_words db) x)
      by (intros y; rewrite upsert_stop_In; simpl; intuition congruence).
    unfold mem at 1. simpl. fold (mem x (stop_words db)).
    destruct (str_eqb x w), (mem x (stop_words db)), (2 <? length x)%nat,
      (isdigit ext x); reflexivity. }
  assert (Hc : get_significant_words ext db' text
               = select_words_in (significant_words db)
                   (filter (fun x => negb (str_eqb x w))
                           (filtered_words ext db text))
               \/ get_significant_words ext db' text = []).
  { rewrite <- Hf. apply (get_significant_words_cases ext db' text). }
  split; [exact Hf|].
  split.
  { intros Hn.
    rewrite (get_significant_words_select ext db text Hn).
    rewrite (get_significant_words_select ext db' text).
    - rewrite Hf. unfold select_words_in, db', add_stop.
      cbn [significant_words].
      rewrite filter_order_by_word, filter_filter_and. f_equal.
      apply filter_ext. intros r. apply mem_filter_others.
    - rewrite Hf.
      pose proof (filter_length_le (fun x => negb (str_eqb x w))
                    (filtered_words ext db text)) as Hl.
      unfold db', add_stop. cbn [max_variables]. lia. }
  split.
  { intros r Hr. destruct Hc as [Hc | Hc]; rewrite Hc in Hr; [|destruct Hr].
    apply select_words_in_In in Hr as [Hr Hw].
    apply filter_In in Hw as [Hw Hne].
    split; [exact Hr|]. split; [exact Hw|].
    apply negb_true_iff in Hne. now apply str_eqb_neq. }
  split; [|split; reflexivity].
  destruct Hc as [-> | ->]; [|reflexivity].
  rewrite rows_keyed_select, mem_filter_others, str_eqb_refl.
  now rewrite andb_false_r.
Qed.

(** ** Seeding *)

Lemma rows_keyed_upsert_word (w : str) (r : word_row) (t : list word_row) :
  rows_keyed w (upsert_word r t)
  = if str_eqb (word r) w then [r] else rows_keyed w t.
Proof.
  destruct (str_eqb (word r) w) eqn:E.
  - apply str_eqb_eq in E. subst w. apply rows_keyed_upsert.
  - unfold upsert_word, rows_keyed. rewrite filter_app. simpl. rewrite E.
    rewrite app_nil_r, filter_filter_and. apply filter_ext_in.
    intros x _. destruct (str_eqb (word x) w) eqn:Ex; [|now rewrite andb_false_r].
    apply str_eqb_eq in Ex. apply str_eqb_neq in E.
    replace (str_eqb (word x) (word r)) with false; [reflexivity|].
    symmetry. apply str_eqb_neq. congruence.
Qed.

Lemma upsert_word_not_empty (r : word_row) (t : list word_row) :
  upsert_word r t <> [].
Proof.
  unfold upsert_word. intros H. apply app_eq_nil in H as [_ H]. discriminate.
Qed.

Lemma upsert_words_not_empty (rows t : list word_row) :
  t <> [] -> upsert_words rows t <> [].
Proof.
  unfold upsert_words. revert t; induction rows as [|r rows IH]; intros t Ht;
    simpl; [exact Ht|].
  apply IH, upsert_word_not_empty.
Qed.

Lemma words_to_insert_not_empty : words_to_insert <> [].
Proof.
  unfold words_to_insert, GENRE_MAPPING. cbn [flat_map entry fst snd map app].
  discriminate.
Qed.

Lemma upsert_stops_not_empty (ws t : list str) :
  t <> [] -> fold_left (fun acc w => upsert_stop w acc) ws t <> [].
Proof.
  revert t; induction ws as [|w ws IH]; intros t Ht; simpl; [exact Ht|].
  apply IH. unfold upsert_stop. intros H.
  apply app_eq_nil in H as [_ H]. discriminate.
Qed.

Lemma seed_words_not_empty : upsert_words words_to_insert [] <> [].
Proof.
  destruct words_to_insert as [|r rows] eqn:Ew;
    [exfalso; now apply words_to_insert_not_empty|].
  apply (@upsert_words_not_empty rows (upsert_word r [])).
  apply upsert_word_not_empty.
Qed.

Lemma seed_stops_not_empty :
  fold_left (fun acc w => upsert_stop w acc) STOP_WORDS [] <> [].
Proof.
  destruct STOP_WORDS as [|w ws] eqn:Es.
  - unfold STOP_WORDS in Es. discriminate Es.
  - simpl. apply upsert_stops_not_empty. unfold upsert_stop. discriminate.
Qed.

Lemma last_keyed_app (w : str) (a b : list word_row) :
  last_keyed w (a ++ b)
  = match last_keyed w b with
    | Some r => Some r
    | None => last_keyed w a
    end.
Proof.
  induction a as [|x a IH]; simpl; [now destruct (last_keyed w b)|].
  rewrite IH. now destruct (last_keyed w b).
Qed.

Lemma last_keyed_In (w : str) (rows : list word_row) (r : word_row) :
  last_keyed w rows = Some r -> In r rows /\ word r = w.
Proof.
  induction rows as [|x rows IH]; simpl; [discriminate|].
  destruct (last_keyed w rows) as [r'|].
  - intros H. injection H as ->. destruct (IH eq_refl). auto.
  - destruct (str_eqb (word x) w) eqn:E; [|discriminate].
    intros H. injection H as ->. apply str_eqb_eq in E. auto.
Qed.

Lemma last_keyed_found (w : str) (rows : list word_row) (r : word_row) :
  In r rows -> word r = w -> last_keyed w rows <> None.
Proof.
  induction rows as [|x rows IH]; simpl; [tauto|].
  intros [-> | Hin] Hk.
  - destruct (last_keyed w rows); [discriminate|].
    rewrite <- Hk, str_eqb_refl. discriminate.
  - specialize (IH Hin Hk). destruct (last_keyed w rows); [discriminate|].
    contradiction.
Qed.

(** X3.  Seeding by [executemany] of [INSERT OR REPLACE]: the last write under
    a key wins.  After a list of rows is written, the table holds for each key
    written exactly one row, the last one of the list with that key, and for
    every other key the rows it held before.  So in the seeded store a word
    that [THEME_MAPPING] lists has one entry, of category theme, also when
    [GENRE_MAPPING] lists it too. *)
Theorem executemany_upsert_last_write_wins
  (rows t : list word_row) (w : str) :
  rows_keyed w (upsert_words rows t)
  = match last_keyed w rows with
    | Some r => [r]
    | None => rows_keyed w t
    end
  /\ (forall th ws, In (th, ws) THEME_MAPPING -> In w ws ->
        exists r, rows_keyed w (significant_words seeded_db) = [r]
                  /\ category r = u "theme").
Proof.
  assert (Hgen : forall rows t,
             rows_keyed w (upsert_words rows t)
             = match last_keyed w rows with
               | Some r => [r]
               | None => rows_keyed w t
               end).
  { clear rows t. unfold upsert_words. intros rows.
    induction rows as [|r rows IH]; intros t; simpl; [reflexivity|].
    rewrite IH. destruct (last_keyed w rows) as [r'|]; [reflexivity|].
    rewrite rows_keyed_upsert_word. now destruct (str_eqb (word r) w). }
  split; [apply Hgen|].
  intros th ws Hth Hw.
  destruct (initialize_db_tables [] empty_db) as (Hs & _).
  unfold seeded_db. rewrite Hs. cbn [significant_words empty_db].
  rewrite Hgen. unfold words_to_insert. rewrite last_keyed_app.
  set (themes_rows :=
         flat_map (fun tk => map (fun w0 => Build_word_row w0 (u "theme") (fst tk) 1)
                                 (snd tk)) THEME_MAPPING).
  assert (Hin : In (Build_word_row w (u "theme") th 1) themes_rows).
  { apply in_flat_map. exists (th, ws). split; [exact Hth|].
    apply in_map_iff. exists w. split; [reflexivity | exact Hw]. }
  destruct (last_keyed w themes_rows) as [r|] eqn:E.
  - exists r. split; [reflexivity|].
    apply last_keyed_In in E as [Hr _].
    apply in_flat_map in Hr as (tk & _ & Hr).
    apply in_map_iff in Hr as (w0 & <- & _). reflexivity.
  - exfalso. exact (@last_keyed_found w themes_rows _ Hin eq_refl E).
Qed.

(** X4.  [initialize_db] seeds only empty tables: a vocabulary or stop-word
    table that holds a row is left as it is, and neither table is empty
    afterwards; a catalogue that holds a movie is left as it is, and an empty
    one receives what the import brought.  A second run leaves the two word
    tables as the first one made them; it changes nothing at all when the
    catalogue is not empty, and runs the import again when the first import
    brought nothing. *)
Theorem initialize_db_seeds_once (tmdb tmdb' : list movie_row) (db : database) :
  let db' := initialize_db tmdb db in
  significant_words db' <> []
  /\ stop_words db' <> []
  /\ (significant_words db <> [] -> significant_words db' = significant_words db)
  /\ (stop_words db <> [] -> stop_words db' = stop_words db)
  /\ (significant_words db = [] ->
        significant_words db' = upsert_words words_to_insert [])
  /\ (movies db <> [] -> movies db' = movies db)
  /\ (movies db = [] -> movies db' = tmdb)
  /\ max_variables db' = max_variables db
  /\ significant_words (initialize_db tmdb' db') = significant_words db'
  /\ stop_words (initialize_db tmdb' db') = stop_words db'
  /\ (movies db' <> [] -> initialize_db tmdb' db' = db')
  /\ (movies db' = [] -> movies (initialize_db tmdb' db') = tmdb').
Proof.
  intros db'.
  destruct (initialize_db_tables tmdb db) as (Hw & Hs & Hm & Hx).
  fold db' in Hw, Hs, Hm, Hx.
  destruct (initialize_db_tables tmdb' db') as (Hw' & Hs' & Hm' & _).
  assert (Hwne : significant_words db' <> []).
  { rewrite Hw. destruct (significant_words db);
      [apply seed_words_not_empty | discriminate]. }
  assert (Hsne : stop_words db' <> []).
  { rewrite Hs. destruct (stop_words db);
      [apply seed_stops_not_empty | discriminate]. }
  split; [exact Hwne|]. split; [exact Hsne|].
  split.
  { intros Hne. rewrite Hw. destruct (significant_words db); congruence. }
  split.
  { intros Hne. rewrite Hs. destruct (stop_words db); congruence. }
  split.
  { intros He. rewrite Hw, He. reflexivity. }
  split.
  { intros Hne. rewrite Hm. destruct (movies db); congruence. }
  split.
  { intros He. rewrite Hm, He. reflexivity. }
  split; [exact Hx|].
  split.
  { rewrite Hw'. destruct (significant_words db'); congruence. }
  split.
  { rewrite Hs'. destruct (stop_words db'); congruence. }
  split.
  - intros Hne. unfold initialize_db.
    destruct (significant_words db') eqn:E1; [contradiction|].
    destruct (stop_words db') eqn:E2; [contradiction|].
    destruct (movies db') eqn:E3; [contradiction | reflexivity].
  - intros He. rewrite Hm', He. reflexivity.
Qed.

(** ** The predicate and its parameters *)

Lemma placeholders_app (a b : str) :
  placeholders (a ++ b) = placeholders a + placeholders b.
Proof. unfold placeholders. now rewrite filter_app, length_app. Qed.

Lemma placeholders_join (sep : str) (parts : list str) :
  placeholders sep = 0 ->
  placeholders (join sep parts) = list_sum (map placeholders parts).
Proof.
  intros Hsep. induction parts as [|p parts IH]; [reflexivity|].
  destruct parts as [|q parts].
  - simpl. lia.
  - change (join sep (p :: q :: parts)) with (p ++ sep ++ join sep (q :: parts)).
    rewrite !placeholders_app, IH, Hsep. simpl. lia.
Qed.

Lemma placeholders_or_group (conds : list str) :
  list_sum (map placeholders (or_group conds)) = list_sum (map placeholders conds).
Proof.
  unfold or_group. destruct conds as [|c conds]; [reflexivity|].
  cbn [map list_sum]. rewrite !placeholders_app, placeholders_join by reflexivity.
  change (placeholders (u "(")) with 0. change (placeholders (u ")")) with 0.
  unfold list_sum. cbn [map fold_right]. lia.
Qed.

Lemma list_sum_const (A : Type) (c : str) (n : nat) (l : list A) :
  placeholders c = n ->
  list_sum (map placeholders (map (fun _ => c) l)) = n * length l.
Proof.
  intros Hc. induction l as [|a l IH]; simpl; [lia|]. rewrite IH, Hc. lia.
Qed.

Section ClauseFacts.

Variable ext : unicode_ext.
Variable current_year : Z.

Lemma genre_clause_balanced (f : filters) :
  list_sum (map placeholders (fst (genre_clause ext f)))
  = length (snd (genre_clause ext f)).
Proof.
  unfold genre_clause. cbn [fst snd].
  rewrite placeholders_or_group, (@list_sum_const _ _ 1) by reflexivity.
  rewrite length_map. lia.
Qed.

Lemma theme_clause_balanced (f : filters) :
  list_sum (map placeholders (fst (theme_clause ext f)))
  = length (snd (theme_clause ext f)).
Proof.
  unfold theme_clause. cbn [fst snd].
  rewrite placeholders_or_group, (@list_sum_const _ _ 2) by reflexivity.
  generalize (theme_words f) as ws. intros ws.
  induction ws as [|w ws IH]; simpl; [reflexivity|]. rewrite <- IH. lia.
Qed.

Lemma year_clause_balanced (f : filters) :
  list_sum (map placeholders (fst (year_clause current_year f)))
  = length (snd (year_clause current_year f)).
Proof.
  unfold year_clause.
  destruct (truthy_int (year f)); [reflexivity|].
  destruct (is_period f "recent"); [reflexivity|].
  destruct (is_period f "classique"); reflexivity.
Qed.

Lemma rating_clause_balanced (f : filters) :
  list_sum (map placeholders (fst (rating_clause f)))
  = length (snd (rating_clause f)).
Proof.
  unfold rating_clause. destruct (truthy_float (rating_min f)); reflexivity.
Qed.

End ClauseFacts.

(** X5.  The predicate and its parameters always match: the [WHERE] text
    built by [search_movies_optimized] holds exactly as many placeholders [?]
    as values are bound to it, for every set of filters; with no condition
    the text is "1=1" and no value is bound. *)
Theorem where_clause_placeholders_match_params
  (ext : unicode_ext) (current_year : Z) (f : filters) :
  placeholders (where_clause ext current_year f)
  = length (params ext current_year f)
  /\ (conditions ext current_year f = [] ->
        where_clause ext current_year f = u "1=1"
        /\ params ext current_year f = []).
Proof.
  assert (Hsum : list_sum (map placeholders (conditions ext current_year f))
                 = length (params ext current_year f)).
  { unfold conditions, params, clauses. cbn [flat_map].
    rewrite !app_nil_r, !map_app, !list_sum_app, !length_app.
    rewrite genre_clause_balanced, theme_clause_balanced,
      (year_clause_balanced current_year), rating_clause_balanced.
    reflexivity. }
  split.
  - unfold where_clause.
    destruct (conditions ext current_year f) as [|c cs] eqn:E.
    + rewrite <- Hsum. reflexivity.
    + rewrite placeholders_join by reflexivity. exact Hsum.
  - intros E. unfold where_clause. rewrite E. split; [reflexivity|].
    rewrite E in Hsum. simpl in Hsum. symmetry in Hsum.
    now apply length_zero_iff_nil in Hsum.
Qed.

Lemma map_const_length (A B : Type) (c : B) (l1 l2 : list A) :
  length l1 = length l2 -> map (fun _ => c) l1 = map (fun _ => c) l2.
Proof.
  revert l2; induction l1 as [|a l1 IH]; intros [|b l2] H; simpl in *;
    try discriminate; [reflexivity|].
  f_equal. apply IH. lia.
Qed.

(** X6.  No text of the request reaches the SQL text: the [WHERE] text
    depends on the filters only through the number of genres, the number of
    theme words, whether a year and a minimal rating are set, and the
    period.  Two sets of filters that agree on these give the same text (the
    genre names and theme words travel as bound parameters only). *)
Theorem where_clause_depends_on_shape_only
  (ext : unicode_ext) (current_year : Z) (f g : filters)
  (Hgenres : length (genres f) = length (genres g))
  (Hthemes : length (theme_words f) = length (theme_words g))
  (Hyear : truthy_int (year f) = truthy_int (year g))
  (Hperiod : period f = period g)
  (Hrating : truthy_float (rating_min f) = truthy_float (rating_min g)) :
  where_clause ext current_year f = where_clause ext current_year g.
Proof.
  assert (Hc : conditions ext current_year f = conditions ext current_year g).
  { unfold conditions, clauses, genre_clause, theme_clause, year_clause,
      rating_clause, is_period. cbn [flat_map fst].
    rewrite (map_const_length _ _ _ Hgenres), (map_const_length _ _ _ Hthemes).
    rewrite Hyear, Hperiod, Hrating.
    destruct (truthy_int (year g)), (truthy_float (rating_min g)),
      (period g) as [p|]; try reflexivity;
      destruct (str_eqb p (u "recent")), (str_eqb p (u "classique"));
      reflexivity. }
  unfold where_clause. now rewrite Hc.
Qed.

Lemma where_clause_shape_witness :
  where_clause latin1_only 2026 (set_genres default_filters [u "action"])
  = where_clause latin1_only 2026 (set_genres default_filters [u "x' OR 1=1 --"]).
Proof.
  apply (where_clause_depends_on_shape_only latin1_only 2026
           (set_genres default_filters [u "action"])
           (set_genres default_filters [u "x' OR 1=1 --"]));
    reflexivity.
Defined.


(** ** Years *)

Lemma re_search_written (ext : unicode_ext) (lit text : str) (y : Z) :
  re_search ext lit text = Some y -> year_written ext text y.
Proof.
  intros H. apply re_search_leftmost in H as (pre & rest & -> & Hm & _).
  apply match_here_spec in Hm
    as (c1 & c2 & c3 & c4 & d1 & d2 & d3 & d4 & tail & -> & H1 & H2 & H3 & H4 & ->).
  exists c1, c2, c3, c4, d1, d2, d3, d4.
  split; [|repeat split; assumption].
  exists (pre ++ lit), tail. now rewrite <- !app_assoc.
Qed.

(** X8.  A year is never invented: when [analyze_request] sets the year, the
    year lies in 1900..current year and the lower-cased request contains four
    consecutive decimal digits that spell it; otherwise no year clause is
    generated from the request. *)
Theorem filter_year_is_written_in_the_request
  (ext : unicode_ext) (current_year : Z) (db : database) (text : str) :
  match year (analyze_request ext current_year db text) with
  | Some y =>
    (1900 <= y <= current_year)%Z
    /\ year_written ext (py_lower ext text) y
    /\ extract_year ext current_year (py_lower ext text) = Some y
  | None => extract_year ext current_year (py_lower ext text) = None
  end.
Proof.
  rewrite analyze_request_unfold.
  destruct (quality_signal_keeps (py_lower ext text)
              (before_signal ext current_year db text)) as (_ & _ & -> & _).
  unfold before_signal.
  match goal with
  | |- context [fold_left classify_step ?rows ?f0] =>
    destruct (classify_loop_scalars rows f0) as (_ & _ & -> & _)
  end.
  destruct (extract_year ext current_year (py_lower ext text)) as [y|] eqn:E;
    [|reflexivity].
  pose proof E as E'. apply extract_year_from_some in E'
    as (before & p & after & _ & [Hs Hr] & _).
  assert ((y =? 0)%Z = false) as -> by (apply Z.eqb_neq; lia).
  cbn [year set_year]. split; [exact Hr|]. split; [|reflexivity].
  exact (re_search_written _ _ _ Hs).
Qed.

(** ** The listing *)

Lemma insert_by_title_perm (m : movie_row) (l : list movie_row) :
  Permutation (m :: l) (insert_by_title m l).
Proof.
  induction l as [|h t IH]; simpl; [reflexivity|].
  destruct (title_leb (title m) (title h)); [reflexivity|].
  rewrite perm_swap. now constructor.
Qed.

Lemma order_by_title_perm (l : list movie_row) :
  Permutation l (order_by_title l).
Proof.
  induction l as [|m l IH]; simpl; [constructor|].
  rewrite <- insert_by_title_perm. now constructor.
Qed.

Lemma insert_by_title_sorted (m : movie_row) (l : list movie_row) :
  by_title l -> by_title (insert_by_title m l).
Proof.
  unfold by_title. induction l as [|h t IH]; intros Hs; simpl.
  - repeat constructor.
  - inversion Hs as [|? ? Ht Hh]; subst.
    destruct (title_leb (title m) (title h)) eqn:E.
    + constructor; [assumption|]. constructor; [assumption|].
      rewrite Forall_forall in *. intros x Hx.
      eapply title_leb_trans; [exact E | now apply Hh].
    + constructor; [now apply IH|].
      rewrite Forall_forall in *. intros x Hx.
      apply (Permutation_in _ (Permutation_sym (insert_by_title_perm m t))) in Hx.
      destruct Hx as [<- | Hx]; [now apply title_leb_total | now apply Hh].
Qed.

Lemma order_by_title_sorted (l : list movie_row) : by_title (order_by_title l).
Proof.
  induction l as [|m l IH]; simpl; [constructor|].
  now apply insert_by_title_sorted.
Qed.

Lemma order_by_title_length (l : list movie_row) :
  length (order_by_title l) = length l.
Proof. symmetry. apply Permutation_length, order_by_title_perm. Qed.

(** The number of pages is the quotient rounded up. *)
Lemma page_count_spec (t k : Z) :
  (0 < k)%Z -> (t <= page_count t k * k < t + k)%Z.
Proof.
  intros Hk. unfold page_count.
  pose proof (Z.div_mod (t + k - 1) k ltac:(lia)) as Hd.
  pose proof (Z.mod_pos_bound (t + k - 1) k Hk) as Hm.
  nia.
Qed.

(** Cutting a list into consecutive slices of [k] elements loses nothing. *)
Lemma slices_cover (A : Type) (k n : nat) (l : list A) :
  length l <= n * k ->
  concat (map (fun i => firstn k (skipn (i * k) l)) (seq 0 n)) = l.
Proof.
  revert l; induction n as [|n IH]; intros l Hl.
  - simpl in *. destruct l; [reflexivity | simpl in Hl; lia].
  - cbn [seq map concat]. rewrite <- seq_shift, map_map.
    rewrite (map_ext _ (fun i => firstn k (skipn (i * k) (skipn k l)))).
    + rewrite IH; [apply firstn_skipn|]. rewrite length_skipn. lia.
    + intros i. rewrite skipn_skipn. f_equal. f_equal. lia.
Qed.

Section ListingFacts.

Variable db : database.
Variable per_page : Z.
Hypothesis per_page_positive : (0 < per_page <= 9223372036854775807)%Z.
Hypothesis table_size : (Z.of_nat (length (movies db)) <= 9223372036854775807)%Z.

Lemma pages_bounds : (Z.of_nat (length (movies db)) <= pages_of db per_page * per_page
   < Z.of_nat (length (movies db)) + per_page)%Z.
Proof. apply page_count_spec. lia. Qed.

(** The offset of the page shown is that of a row of the table, or 0. *)
Lemma offset_bounds (page : Z) :
  (0 <= (clamp_page page (pages_of db per_page) - 1) * per_page
     <= Z.max 0 (Z.of_nat (length (movies db)) - 1))%Z.
Proof.
  pose proof pages_bounds as Hb. unfold clamp_page.
  set (tp := pages_of db per_page) in *.
  assert (Htp : (0 <= tp)%Z) by nia.
  assert (Hc : (0 <= Z.max 1 (Z.min page tp) - 1 <= Z.max 0 (tp - 1))%Z) by lia.
  nia.
Qed.

Lemma list_page_some (page : Z) :
  list_page db page per_page
  = Some {| shown_page := clamp_page page (pages_of db per_page);
            total_pages := (pages_of db per_page);
            page_rows :=
              firstn (Z.to_nat per_page)
                (skipn (Z.to_nat ((clamp_page page (pages_of db per_page) - 1) * per_page))
                       (order_by_title (movies db))) |}.
Proof.
  pose proof (offset_bounds page) as Ho.
  unfold list_page, limit_offset. fold (pages_of db per_page).
  assert ((per_page =? 0)%Z = false) as -> by (apply Z.eqb_neq; lia).
  assert ((per_page <? 0)%Z = false) as -> by (apply Z.ltb_ge; lia).
  assert (sqlite_int per_page = true) as ->
    by (unfold sqlite_int; apply andb_true_iff; split; apply Z.leb_le; lia).
  assert (sqlite_int ((clamp_page page (pages_of db per_page) - 1) * per_page)
          = true) as ->
    by (unfold sqlite_int; apply andb_true_iff; split; apply Z.leb_le; lia).
  reflexivity.
Qed.

Lemma clamp_page_bounds (page : Z) :
  (1 <= clamp_page page (pages_of db per_page) <= Z.max 1 (pages_of db per_page))%Z.
Proof. unfold clamp_page. lia. Qed.

Lemma rows_of_page_slice (i : nat) :
  (Z.of_nat i < (pages_of db per_page))%Z ->
  rows_of_page db per_page (Z.of_nat i + 1)
  = firstn (Z.to_nat per_page)
      (skipn (i * Z.to_nat per_page) (order_by_title (movies db))).
Proof.
  intros Hi. unfold rows_of_page. rewrite list_page_some. cbn [page_rows].
  f_equal. f_equal. unfold clamp_page.
  replace (Z.max 1 (Z.min (Z.of_nat i + 1) (pages_of db per_page))) with (Z.of_nat i + 1)%Z by lia.
  replace (Z.of_nat i + 1 - 1)%Z with (Z.of_nat i) by lia.
  rewrite Z2Nat.inj_mul by lia. now rewrite Nat2Z.id.
Qed.

End ListingFacts.

(** X9.  Pagination bounds of [list_all_movies], for a positive page size
    that SQLite can bind (below 2^63) and a table of fewer than 2^63 rows,
    which is all a table holds.  The number of pages is the number of movies
    divided by the page size, rounded up.  Whatever page is asked for, the
    page shown lies between 1 and the number of pages (it is 1 when the
    catalogue is empty): an in-range request is shown as asked, a request
    below 1 shows page 1 and a request beyond the end shows the last page.
    The page shown holds at most [per_page] movies, and at least one unless
    the catalogue is empty. *)
Theorem list_page_is_clamped_and_bounded
  (db : database) (page per_page : Z)
  (Hpos : (0 < per_page <= 9223372036854775807)%Z)
  (Hrows : (Z.of_nat (length (movies db)) <= 9223372036854775807)%Z) :
  let total := Z.of_nat (length (movies db)) in
  exists l,
    list_page db page per_page = Some l
    /\ (total <= total_pages l * per_page < total + per_page)%Z
    /\ (1 <= shown_page l <= Z.max 1 (total_pages l))%Z
    /\ ((1 <= page <= total_pages l)%Z -> shown_page l = page)
    /\ ((page < 1)%Z -> shown_page l = 1%Z)
    /\ ((1 <= total_pages l < page)%Z -> shown_page l = total_pages l)
    /\ (Z.of_nat (length (page_rows l)) <= per_page)%Z
    /\ (movies db <> [] -> page_rows l <> [])
    /\ (movies db = [] ->
          total_pages l = 0%Z /\ shown_page l = 1%Z /\ page_rows l = []).
Proof.
  intros total. eexists. split; [apply (list_page_some db Hpos Hrows)|].
  cbn [shown_page total_pages page_rows].
  pose proof (pages_bounds db Hpos) as Hb. fold total in Hb.
  set (tp := pages_of db per_page) in *.
  set (sorted := order_by_title (movies db)).
  assert (Hlen : length sorted = length (movies db))
    by apply order_by_title_length.
  split; [exact Hb|].
  split; [unfold clamp_page; lia|].
  split; [unfold clamp_page; lia|].
  split; [unfold clamp_page; lia|].
  split; [unfold clamp_page; lia|].
  split.
  { rewrite length_firstn. lia. }
  split.
  - intros Hne.
    assert (Ht : (0 < total)%Z).
    { subst total. destruct (movies db); [congruence | simpl; lia]. }
    assert (Hc : (1 <= clamp_page page tp <= tp)%Z) by (unfold clamp_page; nia).
    intros Hnil. apply (f_equal (@length _)) in Hnil.
    rewrite length_firstn, length_skipn, Hlen in Hnil. simpl in Hnil.
    assert (Hoff : (Z.of_nat (Z.to_nat ((clamp_page page tp - 1) * per_page))
                    < total)%Z) by (rewrite Z2Nat.id; nia).
    subst total. lia.
  - intros He.
    assert (Ht : total = 0%Z) by (subst total; now rewrite He).
    assert (Htp : tp = 0%Z) by nia.
    rewrite Htp. split; [reflexivity|]. split; [unfold clamp_page; lia|].
    subst sorted. rewrite He. simpl. now rewrite skipn_nil, firstn_nil.
Qed.

Lemma list_page_bounds_witness :
  exists l, list_page three_movies 7 2 = Some l
            /\ (1 <= shown_page l <= Z.max 1 (total_pages l))%Z
            /\ (Z.of_nat (length (page_rows l)) <= 2)%Z.
Proof.
  destruct (@list_page_is_clamped_and_bounded three_movies 7 2
              ltac:(lia) ltac:(simpl; lia))
    as (l & Hl & _ & Hs & _ & _ & _ & Hn & _).
  exists l. split; [exact Hl|]. split; [exact Hs | exact Hn].
Defined.

(** X10.  The pages of [list_all_movies] cover the catalogue: for a positive
    page size that SQLite can bind (below 2^63) and a table of fewer than
    2^63 rows, the rows of pages 1, 2, ... up to the last page, put end to
    end, are all the movies in the order of their titles, each movie once. *)
Theorem listing_pages_cover_the_catalogue
  (db : database) (per_page : Z)
  (Hpos : (0 < per_page <= 9223372036854775807)%Z)
  (Hrows : (Z.of_nat (length (movies db)) <= 9223372036854775807)%Z) :
  let sorted := order_by_title (movies db) in
  concat (map (fun i => rows_of_page db per_page (Z.of_nat i + 1))
              (seq 0 (Z.to_nat (pages_of db per_page))))
  = sorted
  /\ Permutation (movies db) sorted
  /\ by_title sorted.
Proof.
  intros sorted.
  split; [|split; [apply order_by_title_perm | apply order_by_title_sorted]].
  pose proof (pages_bounds db Hpos) as Hb.
  set (tp := pages_of db per_page) in *.
  assert (Htp : (0 <= tp)%Z) by nia.
  rewrite (map_ext_in _ (fun i => firstn (Z.to_nat per_page)
                                    (skipn (i * Z.to_nat per_page) sorted))).
  - apply slices_cover. subst sorted. rewrite order_by_title_length.
    apply Nat2Z.inj_le. rewrite Nat2Z.inj_mul, !Z2Nat.id by lia. lia.
  - intros i Hi. apply in_seq in Hi. apply (rows_of_page_slice db Hpos Hrows).
    fold tp. lia.
Qed.

Lemma listing_cover_witness :
  concat (map (fun i => rows_of_page three_movies 2 (Z.of_nat i + 1))
              (seq 0 (Z.to_nat (pages_of three_movies 2))))
  = order_by_title (movies three_movies).
Proof.
  exact (proj1 (@listing_pages_cover_the_catalogue three_movies 2
                  ltac:(lia) ltac:(simpl; lia))).
Defined.

(** ** The commands *)

Section CommandFacts.

Variable ext : unicode_ext.
Variable rt : python_ext.

Lemma drop_spaces_solid (s : str) :
  drop_spaces rt s = [] \/ starts_solid rt (drop_spaces rt s).
Proof.
  induction s as [|c s IH]; simpl; [now left|].
  destruct (is_space rt c) eqn:E; [exact IH | right; exact E].
Qed.

Lemma drop_spaces_id (s : str) : starts_solid rt s -> drop_spaces rt s = s.
Proof.
  destruct s as [|c s]; simpl; [tauto|]. now intros ->.
Qed.

Lemma no_space_rev (w : str) : no_space rt w -> no_space rt (rev w).
Proof. apply Forall_rev. Qed.

Lemma rev_not_nil (A : Type) (l : list A) : l <> [] -> rev l <> [].
Proof.
  intros H E. apply H. apply (f_equal (@rev A)) in E.
  now rewrite rev_involutive in E.
Qed.

(** The fields returned by [split]: every field taken by a split is not empty
    and free of whitespace; the rest of the text, if any, is one last field
    that starts with a character that is not whitespace. *)
Lemma split_go_fields (s : str) :
  (forall n, fields_ok rt n (split_go rt n None s))
  /\ (forall n fld, fld <> [] -> no_space rt fld ->
        exists w rest, split_go rt n (Some fld) s = w :: rest
                       /\ field rt w /\ fields_ok rt n rest).
Proof.
  induction s as [|c s [IHa IHb]]; split.
  - intros [[|k]|]; simpl; exact I.
  - intros n fld Hne Hns. exists (rev fld), []. simpl.
    repeat split; [now apply rev_not_nil | now apply no_space_rev].
  - intros n.
    assert (Hstep : fields_ok rt n
              (if is_space rt c then split_go rt n None s
               else split_go rt (option_map Nat.pred n) (Some [c]) s)
              \/ n = Some 0).
    { destruct n as [[|k]|]; [now right | left | left].
      - cbn [option_map Nat.pred].
        destruct (is_space rt c) eqn:E; [apply IHa|].
        destruct (IHb (Some k) [c]) as (w & rest & -> & Hw & Hr);
          [discriminate | now repeat constructor|].
        simpl. split; assumption.
      - cbn [option_map].
        destruct (is_space rt c) eqn:E; [apply IHa|].
        destruct (IHb None [c]) as (w & rest & -> & Hw & Hr);
          [discriminate | now repeat constructor|].
        simpl. split; assumption. }
    destruct Hstep as [H | ->].
    + destruct n as [[|k]|]; [|exact H | exact H].
      cbn [split_go].
      destruct (drop_spaces_solid (c :: s)) as [-> | Hd]; [exact I|].
      destruct (drop_spaces rt (c :: s)); [exact I | simpl; auto].
    + cbn [split_go].
      destruct (drop_spaces_solid (c :: s)) as [-> | Hd]; [exact I|].
      destruct (drop_spaces rt (c :: s)); [exact I | simpl; auto].
  - intros n fld Hne Hns. cbn [split_go].
    destruct (is_space rt c) eqn:E.
    + exists (rev fld), (split_go rt n None s).
      repeat split; [now apply rev_not_nil | now apply no_space_rev | apply IHa].
    + apply IHb; [discriminate | now constructor].
Qed.

Lemma split_fields (n : option nat) (s : str) : fields_ok rt n (split rt n s).
Proof. apply split_go_fields. Qed.

Lemma starts_with_trans (p q s : str) :
  starts_with p q = true -> starts_with q s = true -> starts_with p s = true.
Proof.
  rewrite !starts_with_spec. intros [r1 ->] [r2 ->].
  exists (r1 ++ r2). now rewrite app_assoc.
Qed.

End CommandFacts.

(** X11.  What the administrative commands write.  A word added by
    [add word] is never empty and holds no whitespace, and neither does its
    category; the subcategory is the rest of the line and may hold
    whitespace, but does not start with it.  A stop word added by [add stop]
    is never empty and holds no whitespace.  A line that does not start with
    "add " (once lower-cased), and an add command with the wrong number of
    fields, leave the store as it is. *)
Theorem commands_write_well_formed_fields
  (ext : unicode_ext) (rt : python_ext) (db : database) (user_input : str) :
  match read_turn ext rt user_input with
  | DoAddWord w cat sub =>
    field rt w /\ field rt cat /\ starts_solid rt sub
    /\ starts_with (u "add word ") (py_lower ext user_input) = true
  | DoAddStop w =>
    field rt w
    /\ starts_with (u "add stop ") (py_lower ext user_input) = true
  | t => store_after db t = db
  end
  /\ (starts_with (u "add ") (py_lower ext user_input) = false ->
      store_after db (read_turn ext rt user_input) = db).
Proof.
  unfold read_turn.
  set (line := py_lower ext user_input).
  assert (Hw : starts_with (u "add ") (u "add word ") = true) by reflexivity.
  assert (Hs : starts_with (u "add ") (u "add stop ") = true) by reflexivity.
  destruct (str_eqb line (u "quit")); [split; reflexivity|].
  destruct (str_eqb line (u "list")); [split; reflexivity|].
  destruct (starts_with (u "list page ") line).
  { destruct (nth_error (split_on (u "page ") line) 1) as [arg|];
      [destruct (py_int rt arg)|]; split; reflexivity. }
  destruct (starts_with (u "add word ") line) eqn:Ew.
  { pose proof (starts_with_trans _ _ _ Hw Ew) as Ha.
    pose proof (split_fields rt (Some 4) line) as Hf.
    destruct (split rt (Some 4) line) as [|a [|b [|w [|cat [|sub [|x l]]]]]];
      try (split; [reflexivity | congruence]).
    simpl in Hf. destruct Hf as (_ & _ & Hfw & Hfc & Hfs & _).
    split; [repeat split; assumption || apply Hfw || apply Hfc | congruence]. }
  destruct (starts_with (u "add stop ") line) eqn:Es.
  { pose proof (starts_with_trans _ _ _ Hs Es) as Ha.
    pose proof (split_fields rt None line) as Hf.
    destruct (split rt None line) as [|a [|b [|w [|x l]]]];
      try (split; [reflexivity | congruence]).
    simpl in Hf. destruct Hf as (_ & _ & Hfw & _).
    split; [split; [exact Hfw | reflexivity] | congruence]. }
  split; reflexivity.
Qed.

Section SplitFacts.

Variable rt : python_ext.

Lemma split_go_take (tok rest fld : str) (c : char) (n : option nat) :
  no_space rt tok -> is_space rt c = true ->
  split_go rt n (Some fld) (tok ++ c :: rest)
  = (rev fld ++ tok) :: split_go rt n None rest.
Proof.
  intros Htok Hc. revert fld; induction Htok as [|x tok Hx Htok IH]; intros fld.
  - cbn [app split_go]. rewrite Hc, app_nil_r. reflexivity.
  - cbn [app split_go]. rewrite Hx, IH. cbn [rev]. now rewrite <- app_assoc.
Qed.

Lemma split_go_field (tok rest : str) (c : char) (k : nat) :
  field rt tok -> is_space rt c = true ->
  split_go rt (Some (S k)) None (tok ++ c :: rest)
  = tok :: split_go rt (Some k) None rest.
Proof.
  intros [Hne Htok] Hc. destruct tok as [|x tok]; [congruence|].
  inversion Htok as [|? ? Hx Htok']; subst.
  cbn [app split_go option_map Nat.pred]. rewrite Hx.
  now rewrite split_go_take.
Qed.

Lemma split_go_rest (s : str) :
  starts_solid rt s -> split_go rt (Some 0) None s = [s].
Proof.
  intros Hs. destruct s as [|c s]; [destruct Hs|].
  cbn [split_go]. rewrite (drop_spaces_id rt (c :: s) Hs). reflexivity.
Qed.

End SplitFacts.

(** X12.  Round trip of [add word].  For a word and a category that are
    fields (not empty, no whitespace) and a subcategory that does not start
    with whitespace, the lower-case line "add word <word> <category>
    <subcategory>" is read as the upsert of exactly these three values, and
    after the turn the store holds one entry for the word: (word, category,
    subcategory, weight 1). *)
Theorem add_word_line_round_trip
  (ext : unicode_ext) (rt : python_ext) (db : database) (w cat sub : str)
  (Hw : field rt w) (Hcat : field rt cat) (Hsub : starts_solid rt sub)
  (Hlower : py_lower ext (u "add word " ++ w ++ [32%N] ++ cat ++ [32%N] ++ sub)
            = u "add word " ++ w ++ [32%N] ++ cat ++ [32%N] ++ sub) :
  let line := u "add word " ++ w ++ [32%N] ++ cat ++ [32%N] ++ sub in
  read_turn ext rt line = DoAddWord w cat sub
  /\ rows_keyed w (significant_words (store_after db (read_turn ext rt line)))
     = [Build_word_row w cat sub 1].
Proof.
  intros line.
  assert (Hread : read_turn ext rt line = DoAddWord w cat sub).
  { unfold read_turn. fold line in Hlower. rewrite Hlower.
    assert (Hsplit : split rt (Some 4) line = [u "add"; u "word"; w; cat; sub]).
    { unfold split, line.
      assert (Hadd : field rt [97; 100; 100]%N)
        by (split; [discriminate | repeat (apply Forall_cons; [reflexivity|]);
                                   apply Forall_nil]).
      assert (Hword : field rt [119; 111; 114; 100]%N)
        by (split; [discriminate | repeat (apply Forall_cons; [reflexivity|]);
                                   apply Forall_nil]).
      assert (Hsp : is_space rt 32%N = true) by reflexivity.
      change (u "add word ")
        with ([97; 100; 100]%N ++ 32%N :: [119; 111; 114; 100]%N ++ [32%N]).
      rewrite <- !app_assoc. cbn [app].
      change (97 :: 100 :: 100 :: 32 :: 119 :: 111 :: 114 :: 100 :: 32
                 :: w ++ 32 :: cat ++ 32 :: sub)%N
        with ([97; 100; 100]%N ++ 32%N
                :: [119; 111; 114; 100]%N ++ 32%N :: w ++ 32%N :: cat ++ 32%N :: sub).
      rewrite (@split_go_field rt _ _ _ _ Hadd Hsp),
        (@split_go_field rt _ _ _ _ Hword Hsp),
        (@split_go_field rt _ _ _ _ Hw Hsp),
        (@split_go_field rt _ _ _ _ Hcat Hsp).
      now rewrite split_go_rest. }
    rewrite Hsplit.
    unfold line. change (u "add word ") with [97; 100; 100; 32; 119; 111; 114; 100; 32]%N.
    reflexivity. }
  split; [exact Hread|].
  rewrite Hread. cbn [store_after add_word significant_words].
  apply (rows_keyed_upsert (Build_word_row w cat sub 1)).
Qed.

Lemma add_word_line_witness :
  read_turn latin1_only plain_runtime (u "add word bolide theme voiture de course")
  = DoAddWord (u "bolide") (u "theme") (u "voiture de course").
Proof.
  refine (proj1 (@add_word_line_round_trip latin1_only plain_runtime empty_db
                   (u "bolide") (u "theme") (u "voiture de course") _ _ _ _)).
  - split; [discriminate | repeat (apply Forall_cons; [reflexivity|]);
                          apply Forall_nil].
  - split; [discriminate | repeat (apply Forall_cons; [reflexivity|]);
                          apply Forall_nil].
  - reflexivity.
  - reflexivity.
Defined.

(** ** Keyword counts *)

Lemma counted_add (x w : str) (c : list (str * nat)) :
  counted x (counter_add w c)
  = counted x c + (if str_eqb x w then 1 else 0).
Proof.
  induction c as [|[w' n] c IH]; simpl.
  - destruct (str_eqb x w); reflexivity.
  - destruct (str_eqb w w') eqn:Eww; simpl.
    + apply str_eqb_eq in Eww. subst w'.
      destruct (str_eqb x w); lia.
    + destruct (str_eqb x w') eqn:Exw'; [|exact IH].
      apply str_eqb_eq in Exw'. subst w'.
      replace (str_eqb x w) with false; [lia|].
      symmetry. apply str_eqb_neq. apply str_eqb_neq in Eww. congruence.
Qed.

Lemma counter_add_keys (w : str) (c : list (str * nat)) (x : str) :
  In x (map fst (counter_add w c)) <-> x = w \/ In x (map fst c).
Proof.
  induction c as [|[w' n] c IH]; simpl; [intuition congruence|].
  destruct (str_eqb w w') eqn:E; simpl.
  - apply str_eqb_eq in E. subst w'. intuition congruence.
  - rewrite IH. intuition congruence.
Qed.

Lemma counter_add_NoDup (w : str) (c : list (str * nat)) :
  NoDup (map fst c) -> NoDup (map fst (counter_add w c)).
Proof.
  induction c as [|[w' n] c IH]; simpl; intros H.
  - repeat constructor. intros [].
  - inversion H as [|? ? Hnot Hrest]; subst.
    destruct (str_eqb w w') eqn:E; simpl; [now constructor|].
    constructor; [|now apply IH].
    rewrite counter_add_keys. apply str_eqb_neq in E. intuition congruence.
Qed.

Lemma counter_add_positive (w : str) (c : list (str * nat)) :
  Forall (fun p => 0 < snd p) c -> Forall (fun p => 0 < snd p) (counter_add w c).
Proof.
  induction c as [|[w' n] c IH]; simpl; intros H.
  - repeat constructor.
  - inversion H; subst. destruct (str_eqb w w'); constructor; simpl in *;
      auto; lia.
Qed.

Lemma counter_add_sum (w : str) (c : list (str * nat)) :
  list_sum (map snd (counter_add w c)) = S (list_sum (map snd c)).
Proof.
  induction c as [|[w' n] c IH]; simpl; [reflexivity|].
  destruct (str_eqb w w'); simpl; [reflexivity | rewrite IH; lia].
Qed.

Lemma occurrences_snoc (x w : str) (ws : list str) :
  occurrences x (ws ++ [w]) = occurrences x ws + (if str_eqb x w then 1 else 0).
Proof.
  unfold occurrences. rewrite filter_app, length_app. simpl.
  destruct (str_eqb x w); reflexivity.
Qed.

(** [Counter] counts: what it holds after reading a list of words. *)
Lemma Counter_spec (ws : list str) :
  NoDup (map fst (Counter ws))
  /\ Forall (fun p => 0 < snd p) (Counter ws)
  /\ (forall x, counted x (Counter ws) = occurrences x ws)
  /\ list_sum (map snd (Counter ws)) = length ws.
Proof.
  unfold Counter. induction ws as [|w ws IH] using rev_ind.
  - simpl. repeat split; constructor.
  - rewrite fold_left_app. simpl. destruct IH as (Hn & Hp & Hc & Hs).
    split; [now apply counter_add_NoDup|].
    split; [now apply counter_add_positive|].
    split.
    + intros x. now rewrite counted_add, Hc, occurrences_snoc.
    + rewrite counter_add_sum, Hs, length_app. simpl. lia.
Qed.

Lemma counted_In (c : list (str * nat)) (w : str) (n : nat) :
  NoDup (map fst c) -> In (w, n) c -> counted w c = n.
Proof.
  induction c as [|[w' n'] c IH]; simpl; [tauto|].
  intros H [E | Hin].
  - injection E as -> ->. now rewrite str_eqb_refl.
  - inversion H as [|? ? Hnot Hrest]; subst.
    destruct (str_eqb w w') eqn:E; [|now apply IH].
    apply str_eqb_eq in E. subst w'. exfalso. apply Hnot.
    apply in_map_iff. now exists (w, n).
Qed.

Lemma occurrences_positive (w : str) (ws : list str) :
  0 < occurrences w ws <-> In w ws.
Proof.
  unfold occurrences. induction ws as [|x ws IH]; simpl; [lia|].
  destruct (str_eqb w x) eqn:E; simpl.
  - apply str_eqb_eq in E. subst x. split; [now left | lia].
  - rewrite IH. apply str_eqb_neq in E. intuition congruence.
Qed.

Lemma source_rows_sum (rowid : Z) (weight : nat) (source : string)
    (c : list (str * nat)) :
  list_sum (map kw_count (source_rows rowid weight source c))
  = list_sum (map snd c) * weight.
Proof.
  unfold source_rows. induction c as [|[w n] c IH]; simpl; [reflexivity|].
  rewrite IH. lia.
Qed.

(** X13.  The keyword rows that [extract_and_store_keywords] builds for one
    source of a movie (title with weight 3, overview with weight 1, genres
    with weight 2): one row per distinct significant word of the text, whose
    count is the number of occurrences of the word times the weight; the
    counts add up to the number of significant words times the weight; a
    column that holds NULL gives no row. *)
Theorem keyword_rows_count_occurrences
  (ext : unicode_ext) (rowid : Z) (weight : nat) (source : string)
  (text : option str) :
  let ws := extract_words_of ext text in
  let rows := source_rows rowid weight source (Counter ws) in
  NoDup (map kw_word rows)
  /\ (forall r, In r rows ->
        In (kw_word r) ws
        /\ kw_count r = occurrences (kw_word r) ws * weight
        /\ kw_movie r = rowid /\ kw_source r = u source)
  /\ (forall w, In w ws -> In w (map kw_word rows))
  /\ list_sum (map kw_count rows) = length ws * weight
  /\ source_rows rowid weight source (Counter (extract_words_of ext None)) = []
  /\ (forall t o g,
        keywords_data ext rowid t o g
        = source_rows rowid 3 "title" (Counter (extract_words_of ext t))
          ++ source_rows rowid 1 "overview" (Counter (extract_words_of ext o))
          ++ source_rows rowid 2 "genre" (Counter (extract_words_of ext g))).
Proof.
  intros ws rows.
  destruct (Counter_spec ws) as (Hn & Hp & Hc & Hs).
  assert (Hkeys : map kw_word rows = map fst (Counter ws)).
  { unfold rows, source_rows. rewrite map_map. reflexivity. }
  split; [now rewrite Hkeys|].
  split.
  { intros r Hr. unfold rows, source_rows in Hr.
    apply in_map_iff in Hr as ([w n] & <- & Hin). cbn [kw_word kw_count fst snd
      kw_movie kw_source].
    pose proof (counted_In _ _ _ Hn Hin) as Hcount. rewrite Hc in Hcount.
    rewrite Forall_forall in Hp. specialize (Hp _ Hin). simpl in Hp.
    repeat split; [|now rewrite Hcount].
    apply occurrences_positive. lia. }
  split.
  { intros w Hw. rewrite Hkeys.
    apply occurrences_positive in Hw. rewrite <- Hc in Hw.
    clear - Hw. induction (Counter ws) as [|[w' n] c IH]; simpl in *; [lia|].
    destruct (str_eqb w w') eqn:E; [left; symmetry; now apply str_eqb_eq|].
    right. now apply IH. }
  split; [unfold rows; now rewrite source_rows_sum, Hs|].
  split; reflexivity.
Qed.

(** ** The response *)

Section ResponseFacts.

Variable rt : python_ext.

Lemma movie_block_displayable (movie : option formatted) :
  movie_block rt movie <> None <-> displayable rt movie.
Proof.
  unfold movie_block, displayable, bind, py_format_1f, display_description.
  destruct movie as [m|]; [|split; [intros H; now elim H | intros []]].
  destruct (res_weighted_score m) as [| z | x | s0], (description m);
    try destruct (int_1f rt z);
    (split; [intros H | intros H' H]);
    try (now elim H); try (destruct H' as [[] _]); try (destruct H' as [_ []]);
    try (destruct H' as [H' _]; now elim H');
    try discriminate H; try (split; [discriminate | exact I]);
    try (split; exact I).
Qed.

Lemma movie_blocks_displayable (movies_info : list (option formatted)) :
  movie_blocks rt movies_info <> None <-> Forall (displayable rt) movies_info.
Proof.
  induction movies_info as [|movie rest IH]; simpl.
  - split; [constructor | discriminate].
  - unfold bind. destruct (movie_block rt movie) as [b|] eqn:Eb.
    + assert (Hd : displayable rt movie)
        by (apply movie_block_displayable; congruence).
      destruct (movie_blocks rt rest) as [bs|].
      * split; [intros _; constructor; [exact Hd | now apply IH] | discriminate].
      * split; [intros H; now elim H|]. intros H. inversion H; subst.
        now apply IH.
    + split; [intros H; now elim H|]. intros H.
      inversion H as [|? ? Hd _]; subst.
      apply movie_block_displayable in Hd. congruence.
Qed.

End ResponseFacts.

(** X14.  When [generate_response] answers.  With no result it returns the
    no-result message.  With results it returns a text, which starts with the
    introduction, exactly when every entry is a record whose score is a
    number that [.1f] formats and whose description is a string; otherwise it
    raises: so one entry that is [None], or one record whose description is
    [None], aborts the whole response. *)
Theorem generate_response_answers_iff_all_displayable
  (rt : python_ext) (movies_info : list (option formatted)) (f : filters) :
  generate_response rt [] f = Some no_result
  /\ (movies_info <> [] ->
        (generate_response rt movies_info f <> None
         <-> Forall (displayable rt) movies_info)
        /\ (forall text, generate_response rt movies_info f = Some text ->
              starts_with (intro f) text = true)
        /\ (In None movies_info -> generate_response rt movies_info f = None)).
Proof.
  split; [reflexivity|].
  intros Hne. destruct movies_info as [|movie rest]; [congruence|].
  assert (Hiff : generate_response rt (movie :: rest) f <> None
                 <-> Forall (displayable rt) (movie :: rest)).
  { rewrite <- (movie_blocks_displayable rt). unfold generate_response, bind.
    destruct (movie_blocks rt (movie :: rest)); split; intros H;
      try discriminate; exact H. }
  split; [exact Hiff|]. split.
  - intros text. unfold generate_response, bind.
    destruct (movie_blocks rt (movie :: rest)) as [bs|]; [|discriminate].
    intros H. injection H as <-. apply starts_with_spec. now exists bs.
  - intros Hin.
    destruct (generate_response rt (movie :: rest) f) eqn:E; [|reflexivity].
    exfalso. assert (Hd : Forall (displayable rt) (movie :: rest))
      by (apply Hiff; congruence).
    rewrite Forall_forall in Hd. exact (Hd None Hin).
Qed.


(** X16.  Page sizes that are not positive, or that SQLite cannot bind.
    With a page size of 0 the page count divides by zero, and a page size
    outside the 64-bit integers cannot be bound to the statement: in both
    cases [list_all_movies] answers its error message.  With a negative page
    size that can be bound, the offset is never positive and the limit is
    none, so every movie is shown at once, whatever page is asked for. *)
Theorem listing_with_a_page_size_that_is_not_positive
  (rt : python_ext) (db : database) (page per_page : Z)
  (Hneg : (- 9223372036854775808 <= per_page < 0)%Z) :
  (forall size,
     (size = 0 \/ size < - 9223372036854775808 \/ 9223372036854775807 < size)%Z ->
     list_all_movies rt db page size
     = u "Désolé, une erreur est survenue lors de la récupération de la liste des films.")
  /\ rows_of_page db per_page page = order_by_title (movies db)
  /\ exists l, list_page db page per_page = Some l /\ (1 <= shown_page l)%Z.
Proof.
  split.
  { intros size Hsize. unfold list_all_movies, list_page.
    destruct (size =? 0)%Z eqn:E0; [reflexivity|].
    apply Z.eqb_neq in E0.
    assert (sqlite_int size = false) as ->; [|reflexivity].
    unfold sqlite_int. apply andb_false_iff.
    destruct Hsize as [H | [H | H]]; [contradiction | left | right];
      apply Z.leb_gt; lia. }
  unfold rows_of_page, list_page, limit_offset.
  assert ((per_page =? 0)%Z = false) as -> by (apply Z.eqb_neq; lia).
  assert ((per_page <? 0)%Z = true) as -> by (apply Z.ltb_lt; lia).
  set (tp := page_count _ per_page).
  set (p := clamp_page page tp).
  assert (Htp : (tp <= 2)%Z).
  { unfold tp, page_count.
    set (n := (Z.of_nat (length (movies db)) + per_page - 1)%Z).
    pose proof (Z.div_mod n per_page ltac:(lia)) as Hd.
    pose proof (Z.mod_neg_bound n per_page ltac:(lia)) as Hm.
    assert (Hn : (per_page - 1 <= n)%Z) by (unfold n; lia).
    nia. }
  assert (Hp : (1 <= p <= 2)%Z) by (unfold p, clamp_page; lia).
  assert (sqlite_int per_page = true) as ->
    by (unfold sqlite_int; apply andb_true_iff; split; apply Z.leb_le; lia).
  assert (sqlite_int ((p - 1) * per_page) = true) as ->
    by (unfold sqlite_int; apply andb_true_iff; split; apply Z.leb_le; nia).
  cbn [andb page_rows shown_page].
  assert (Z.to_nat ((p - 1) * per_page) = 0) as -> by nia.
  split; [reflexivity|]. eexists. split; [reflexivity | apply Hp].
Qed.

Lemma listing_negative_page_size_witness :
  rows_of_page three_movies (-2) 3 = order_by_title (movies three_movies).
Proof.
  exact (proj1 (proj2 (@listing_with_a_page_size_that_is_not_positive
                         plain_runtime three_movies 3 (-2) ltac:(lia)))).
Defined.

Lemma analyze_request_rating (ext : unicode_ext) (current_year : Z)
    (db : database) (text : str) :
  let r := rating_min (analyze_request ext current_year db text) in
  r = None \/ r = Some 7%float \/ r = Some 6.5%float.
Proof.
  intros r. subst r. rewrite analyze_request_unfold.
  destruct (before_signal_defaults ext current_year db text)
    as (_ & _ & Hr & _).
  unfold quality_signal.
  repeat match goal with
         | |- context [if ?b then _ else _] => destruct b
         end; cbn [rating_min set_rating_min set_sort_by set_prefer_unknown];
    auto.
Qed.

Lemma analyze_request_year (ext : unicode_ext) (current_year : Z)
    (db : database) (text : str) :
  let f := analyze_request ext current_year db text in
  truthy_int (year f) = match year f with Some _ => true | None => false end.
Proof.
  intros f. subst f. rewrite analyze_request_unfold.
  destruct (quality_signal_keeps (py_lower ext text)
              (before_signal ext current_year db text)) as (_ & _ & -> & _).
  unfold before_signal.
  match goal with
  | |- context [fold_left classify_step ?rows ?f0] =>
    destruct (classify_loop_scalars rows f0) as (_ & _ & -> & _)
  end.
  destruct (extract_year ext current_year (py_lower ext text)) as [y|];
    [|reflexivity].
  destruct (y =? 0)%Z eqn:E; [reflexivity|].
  cbn [year set_year truthy_int]. now rewrite E.
Qed.

(** Every condition starts with a parenthesis or a column name. *)
Lemma conditions_head (ext : unicode_ext) (current_year : Z) (f : filters)
    (c : str) :
  In c (conditions ext current_year f) ->
  exists x rest, c = x :: rest /\ x <> 49%N.
Proof.
  unfold conditions, clauses. cbn [flat_map]. rewrite app_nil_r, !in_app_iff.
  intros [H | [H | [H | H]]].
  - apply or_group_paren in H as (rest & ->). exists 40%N, rest.
    split; [reflexivity | discriminate].
  - apply or_group_paren in H as (rest & ->). exists 40%N, rest.
    split; [reflexivity | discriminate].
  - unfold year_clause in H.
    destruct (truthy_int (year f)); [|destruct (is_period f "recent");
      [|destruct (is_period f "classique")]];
      cbn [fst] in H; try (destruct H as [<- | []]); try destruct H;
      eexists 114%N, _; (split; [vm_compute; reflexivity | discriminate]).
  - unfold rating_clause in H.
    destruct (truthy_float (rating_min f)); cbn [fst] in H;
      [destruct H as [<- | []] | destruct H].
    eexists 118%N, _. split; [vm_compute; reflexivity | discriminate].
Qed.

(** The text "1=1" is written only when there is no condition. *)
Lemma where_clause_everything (ext : unicode_ext) (current_year : Z)
    (f : filters) :
  where_clause ext current_year f = u "1=1" ->
  conditions ext current_year f = [].
Proof.
  unfold where_clause.
  destruct (conditions ext current_year f) as [|c cs] eqn:E; [reflexivity|].
  destruct (@conditions_head ext current_year f c) as (x & rest & -> & Hx).
  { rewrite E. now left. }
  intros H. exfalso. apply Hx.
  destruct cs as [|c' cs]; cbn [join app] in H;
    change (u "1=1") with [49%N; 61%N; 49%N] in H; now injection H.
Qed.

(** X17.  When a request is answered from the whole catalogue.  For the
    filters that [analyze_request] extracts, the predicate is the
    match-everything text "1=1", with no parameter, exactly when the request
    names no genre, no theme that has words in [THEME_MAPPING], no year, and
    carries no "critically acclaimed" or "under-the-radar" signal (no minimal
    rating). *)
Theorem request_matches_everything_iff_no_constraint
  (ext : unicode_ext) (current_year : Z) (db : database) (text : str) :
  let f := analyze_request ext current_year db text in
  (conditions ext current_year f = []
   <-> genres f = [] /\ theme_words f = [] /\ year f = None
       /\ rating_min f = None)
  /\ (conditions ext current_year f = [] ->
      where_clause ext current_year f = u "1=1"
      /\ params ext current_year f = [])
  /\ (where_clause ext current_year f = u "1=1" ->
      conditions ext current_year f = []).
Proof.
  intros f.
  assert (Hback : where_clause ext current_year f = u "1=1" ->
                  conditions ext current_year f = [])
    by apply where_clause_everything.
  pose proof (analyze_request_year ext current_year db text) as Hy.
  pose proof (analyze_request_rating ext current_year db text) as Hr.
  assert (Hp : period f = None).
  { unfold f. rewrite analyze_request_unfold.
    destruct (quality_signal_keeps (py_lower ext text)
                (before_signal ext current_year db text)) as (_ & -> & _).
    now destruct (before_signal_defaults ext current_year db text)
      as (_ & ? & _). }
  fold f in Hy, Hr. cbv zeta in Hy, Hr.
  assert (Hiff : conditions ext current_year f = []
                 <-> genres f = [] /\ theme_words f = [] /\ year f = None
                     /\ rating_min f = None).
  { unfold conditions, clauses, genre_clause, theme_clause, year_clause,
      rating_clause, is_period. cbn [flat_map fst]. rewrite Hp, Hy, app_nil_r.
    destruct (genres f) as [|g gs], (theme_words f) as [|w ws],
      (year f) as [y|];
      destruct Hr as [-> | [-> | ->]]; cbn;
      split; try discriminate; try (intros (? & ? & ? & ?); discriminate);
      auto. }
  split; [exact Hiff|].
  split; [|exact Hback].
  intros Hc. unfold where_clause. rewrite Hc. split; [reflexivity|].
  apply Hiff in Hc as (Hg & Ht & Hyn & Hrn).
  unfold params, clauses, genre_clause, theme_clause, year_clause,
    rating_clause, is_period. cbn [flat_map snd].
  rewrite Hg, Ht, Hyn, Hrn, Hp. reflexivity.
Qed.

(** ** Adding to the vocabulary *)

Lemma analyze_request_lists (ext : unicode_ext) (current_year : Z)
    (db : database) (text : str) :
  let rows := get_significant_words ext db (py_lower ext text) in
  let f := analyze_request ext current_year db text in
  keywords f = map word rows
  /\ genres f = first_seen [] (subcategories_of "genre" rows)
  /\ themes f = first_seen [] (subcategories_of "theme" rows).
Proof.
  intros rows f. subst f. rewrite analyze_request_unfold.
  destruct (quality_signal_keeps (py_lower ext text)
              (before_signal ext current_year db text))
    as (_ & _ & _ & -> & -> & ->).
  unfold before_signal. fold rows.
  match goal with
  | |- context [fold_left classify_step rows ?f0] =>
    destruct (classify_loop_spec rows f0) as (Hk & Hg & Ht);
    assert (H0 : keywords f0 = [] /\ genres f0 = [] /\ themes f0 = [])
  end.
  { destruct (extract_year ext current_year (py_lower ext text)) as [y|];
      [destruct (y =? 0)%Z|]; simpl; tauto. }
  destruct H0 as (H1 & H2 & H3).
  rewrite Hk, Hg, Ht, H1, H2, H3. simpl. tauto.
Qed.

Lemma added_row_is_returned (ext : unicode_ext) (db : database)
    (w cat sub t : str) :
  (Z.of_nat (length (filtered_words ext db t)) <= max_variables db)%Z ->
  In w (filtered_words ext db t) ->
  In (Build_word_row w cat sub 1)
     (get_significant_words ext (add_word db w cat sub) t).
Proof.
  intros Hn Hw.
  rewrite (get_significant_words_select ext (add_word db w cat sub) t Hn).
  apply select_words_in_In. split.
  - unfold add_word, upsert_word. cbn [significant_words].
    apply in_or_app. right. now left.
  - exact Hw.
Qed.

(** X18.  A word added by [add word] is recognised at once.  If a word is
    among the significant tokens of a request, and the request has no more
    significant tokens than the engine binds to one statement, then after
    [add word] with category genre (respectively theme) the analysis of that
    request lists the subcategory among its genres (respectively themes), and
    the word among its keywords. *)
Theorem added_word_is_recognised
  (ext : unicode_ext) (current_year : Z) (db : database) (w sub text : str)
  (Htoken : In w (filtered_words ext db (py_lower ext text)))
  (Hlimit : (Z.of_nat (length (filtered_words ext db (py_lower ext text)))
             <= max_variables db)%Z) :
  let as_genre :=
    analyze_request ext current_year (add_word db w (u "genre") sub) text in
  let as_theme :=
    analyze_request ext current_year (add_word db w (u "theme") sub) text in
  In sub (genres as_genre) /\ In w (keywords as_genre)
  /\ In sub (themes as_theme) /\ In w (keywords as_theme).
Proof.
  intros as_genre as_theme.
  pose proof (@added_row_is_returned ext db w (u "genre") sub _ Hlimit Htoken)
    as Hg.
  pose proof (@added_row_is_returned ext db w (u "theme") sub _ Hlimit Htoken)
    as Ht.
  destruct (analyze_request_lists ext current_year
              (add_word db w (u "genre") sub) text) as (Hk1 & Hg1 & _).
  destruct (analyze_request_lists ext current_year
              (add_word db w (u "theme") sub) text) as (Hk2 & _ & Ht2).
  fold as_genre in Hk1, Hg1. fold as_theme in Hk2, Ht2.
  rewrite Hk1, Hg1, Hk2, Ht2.
  split.
  { apply first_seen_In. split; [|intros []].
    apply subcategories_of_In. eexists. split; [exact Hg|]. now split. }
  split.
  { apply in_map_iff. eexists. split; [|exact Hg]. reflexivity. }
  split.
  { apply first_seen_In. split; [|intros []].
    apply subcategories_of_In. eexists. split; [exact Ht|]. now split. }
  apply in_map_iff. eexists. split; [|exact Ht]. reflexivity.
Qed.

Lemma added_word_witness :
  In (u "voiture")
     (themes (analyze_request latin1_only 2026
                (add_word seeded_db (u "bolide") (u "theme") (u "voiture"))
                (u "un film avec un bolide"))).
Proof.
  refine (proj1 (proj2 (proj2
    (@added_word_is_recognised latin1_only 2026 seeded_db (u "bolide")
       (u "voiture") (u "un film avec un bolide") _ _)))).
  - vm_compute. left. reflexivity.
  - vm_compute. discriminate.
Defined.

(** X19.  [add stop] is an idempotent upsert: after it the stop-word table
    holds the word exactly once, the other stop words are kept, a second run
    of the same command changes nothing, and a table without repetition stays
    without repetition. *)
Theorem add_stop_upsert_idempotent (db : database) (w : str) :
  let db1 := add_stop db w in
  add_stop db1 w = db1
  /\ filter (str_eqb w) (stop_words db1) = [w]
  /\ (forall x, In x (stop_words db1) <-> x = w \/ In x (stop_words db))
  /\ (NoDup (stop_words db) -> NoDup (stop_words db1))
  /\ significant_words db1 = significant_words db
  /\ movies db1 = movies db.
Proof.
  intros db1.
  assert (Hnone : forall t, filter (str_eqb w)
                              (filter (fun x => negb (str_eqb x w)) t) = []).
  { intros t. apply filter_none. intros x Hx. apply filter_In in Hx as [_ Hx].
    apply negb_true_iff, str_eqb_neq in Hx. apply str_eqb_neq. congruence. }
  assert (Hidem : forall t,
             filter (fun x => negb (str_eqb x w))
                    (filter (fun x => negb (str_eqb x w)) t)
             = filter (fun x => negb (str_eqb x w)) t).
  { intros t. rewrite filter_filter_and. apply filter_ext.
    intros x. now destruct (negb (str_eqb x w)). }
  split.
  { unfold db1, add_stop, upsert_stop. cbn [stop_words significant_words movies].
    f_equal. rewrite filter_app, Hidem. simpl. rewrite str_eqb_refl. simpl.
    now rewrite app_nil_r. }
  split.
  { unfold db1, add_stop, upsert_stop. cbn [stop_words].
    rewrite filter_app, Hnone. simpl. now rewrite str_eqb_refl. }
  split; [intros x; apply upsert_stop_In|].
  split; [|split; reflexivity].
  intros Hnd. unfold db1, add_stop, upsert_stop. cbn [stop_words].
  apply NoDup_app.
  - now apply NoDup_filter.
  - repeat constructor. intros [].
  - intros x Hx [<- | []]. apply filter_In in Hx as [_ Hx].
    now rewrite str_eqb_refl in Hx.
Qed.
